(** * Zudora: the cutoff matcher and the intent classifier

    A shallow embedding of [findCollegesByMarks] and [generateAIResponse]
    (the chat component of the repository) and the properties the
    specification states about them.

    Modelling choices.
    - A JavaScript [number] is [NaN] or a rational [Num q]; the rational
      stands for the finite double it denotes (comparison and the sign of a
      difference of finite doubles agree with those of their exact values).
      [parseFloat] rounds the decimal value of its text to the nearest
      double, as the language does; the infinities are not values of the
      model, and no text the classifier parses reaches them.
    - A JavaScript string is a [string] of 8-bit characters: the ASCII
      fragment, where [toLowerCase] and [toUpperCase] act on the letters
      A-Z and a-z and every other character is left alone. Outside this
      fragment the language does not lower-case a text character by
      character; what the classifier finds in a text is therefore stated
      on the lower-cased text, which is the text it searches.
    - The catalog [collegesData.tnea_colleges] comes from a JSON file that
      is not part of the sources; it is a parameter of every definition.
    - An exception is a value [Throw e] of the monad [M]; the monad also
      keeps a log of the calls of [findCollegesByMarks]. *)

From Stdlib Require Import QArith Lqa Ascii String DecimalString.
From stdpp Require Import gmap strings list sorting.

Local Open Scope string_scope.

(** ** Values *)

Inductive number : Type :=
| NaN
| Num (q : Q).

(** The values a property of a parsed JSON object can evaluate to.
    [VObject] stands for objects, arrays and functions, whose contents the
    code never inspects. *)
Inductive value : Type :=
| VUndefined
| VNull
| VBool (b : bool)
| VNumber (n : number)
| VString (s : string)
| VObject.

(** [ToBoolean]. *)
Definition truthy (v : value) : bool :=
  match v with
  | VUndefined | VNull => false
  | VBool b => b
  | VNumber NaN => false
  | VNumber (Num q) => negb (Qeq_bool q 0)
  | VString s => negb (String.eqb s "")
  | VObject => true
  end.

(** [a >= b] on numbers: false as soon as one side is [NaN]. *)
Definition number_ge (a b : number) : bool :=
  match a, b with
  | Num x, Num y => Qle_bool y x
  | _, _ => false
  end.

(** [a - b] on numbers. *)
Definition number_sub (a b : number) : number :=
  match a, b with
  | Num x, Num y => Num (x - y)%Q
  | _, _ => NaN
  end.

(** [v > 0], the test [Array.prototype.sort] applies to the result of the
    comparator to decide that its first argument goes after the second
    ([NaN] counts as [+0]). *)
Definition number_pos (v : number) : bool :=
  match v with
  | Num x => negb (Qle_bool x 0)
  | NaN => false
  end.

(** ** Data model *)

Record Branch : Type := {
  branch_name : string;
  cutoffs_2024 : gmap string value
}.

Record College : Type := {
  college_name : string;
  address : string;
  branches : list Branch
}.

Record CollegeSuggestion : Type := {
  sg_college_name : string;
  sg_branch_name : string;
  cutoff : number;
  sg_address : string
}.

(** The names [Object.prototype] defines: reading one of them from a plain
    object that does not own it yields a function or an object. *)
Definition objectPrototypeKeys : list string :=
  [ "constructor"; "__defineGetter__"; "__defineSetter__"; "hasOwnProperty";
    "__lookupGetter__"; "__lookupSetter__"; "isPrototypeOf";
    "propertyIsEnumerable"; "toString"; "valueOf"; "__proto__";
    "toLocaleString" ].

(** [o[k]] on a parsed JSON object. *)
Definition getProp (o : gmap string value) (k : string) : value :=
  match o !! k with
  | Some v => v
  | None => if bool_decide (k ∈ objectPrototypeKeys) then VObject else VUndefined
  end.

(** ** The cutoff matcher *)

Definition mkSuggestion (college : College) (branch : Branch) (c : number)
  : CollegeSuggestion :=
  {| sg_college_name := college_name college;
     sg_branch_name := branch_name branch;
     cutoff := c;
     sg_address := address college |}.

(** The body of the inner [forEach]: [suggestions] is the array being
    filled, returned with or without the pushed element. *)
Definition visitBranch (marks : number) (category : string) (college : College)
    (suggestions : list CollegeSuggestion) (branch : Branch)
  : list CollegeSuggestion :=
  let cutoff := getProp (cutoffs_2024 branch) category in
  match cutoff with
  | VNumber c =>
      if truthy cutoff && number_ge marks c
      then suggestions ++ [mkSuggestion college branch c]
      else suggestions
  | _ => suggestions (* typeof cutoff !== 'number', or cutoff is falsy *)
  end.

(** The body of the outer [forEach]. *)
Definition visitCollege (marks : number) (category : string)
    (suggestions : list CollegeSuggestion) (college : College)
  : list CollegeSuggestion :=
  fold_left (visitBranch marks category college) (branches college) suggestions.

(** The array [suggestions] when both loops are done. *)
Definition collect (tnea_colleges : list College) (marks : number)
    (category : string) : list CollegeSuggestion :=
  fold_left (visitCollege marks category) tnea_colleges [].

(** The comparator [(a, b) => b.cutoff - a.cutoff]. *)
Definition byCutoffDesc (a b : CollegeSuggestion) : number :=
  number_sub (cutoff b) (cutoff a).

(** [Array.prototype.sort] is stable; for a comparator that is consistent
    on the array the result is therefore determined, and it is the one of
    this insertion sort: [x], which comes from before every element of [l],
    is moved past [y] only when [cmp x y > 0]. *)
Fixpoint sort_insert {A} (cmp : A -> A -> number) (x : A) (l : list A) : list A :=
  match l with
  | [] => [x]
  | y :: l' => if number_pos (cmp x y) then y :: sort_insert cmp x l'
               else x :: y :: l'
  end.

Fixpoint array_sort {A} (cmp : A -> A -> number) (l : list A) : list A :=
  match l with
  | [] => []
  | x :: l' => sort_insert cmp x (array_sort cmp l')
  end.

(** [suggestions.sort(...)], the matcher's result before [slice]. *)
Definition sortedSuggestions (tnea_colleges : list College) (marks : number)
    (category : string) : list CollegeSuggestion :=
  array_sort byCutoffDesc (collect tnea_colleges marks category).

Definition findCollegesByMarks (tnea_colleges : list College) (marks : number)
    (category : string) : list CollegeSuggestion :=
  take 10 (sortedSuggestions tnea_colleges marks category).

(** ** Text *)

Definition isUpper (c : ascii) : bool :=
  ((65 <=? N_of_ascii c) && (N_of_ascii c <=? 90))%N.

Definition isLower (c : ascii) : bool :=
  ((97 <=? N_of_ascii c) && (N_of_ascii c <=? 122))%N.

(** [\d] *)
Definition isDigit (c : ascii) : bool :=
  ((48 <=? N_of_ascii c) && (N_of_ascii c <=? 57))%N.

(** [\w]: a letter, a digit or the underscore. *)
Definition isWordChar (c : ascii) : bool :=
  isUpper c || isLower c || isDigit c || Ascii.eqb c "_"%char.

Definition lowerChar (c : ascii) : ascii :=
  if isUpper c then ascii_of_N (N_of_ascii c + 32) else c.

Definition upperChar (c : ascii) : ascii :=
  if isLower c then ascii_of_N (N_of_ascii c - 32) else c.

Fixpoint mapChars (f : ascii -> ascii) (s : string) : string :=
  match s with
  | "" => ""
  | String c s' => String (f c) (mapChars f s')
  end.

Definition toLowerCase : string -> string := mapChars lowerChar.
Definition toUpperCase : string -> string := mapChars upperChar.

(** [s.includes(t)]: [t] occurs in [s] as a substring. *)
Fixpoint includes (s t : string) : bool :=
  String.prefix t s ||
  match s with
  | "" => false
  | String _ s' => includes s' t
  end.

(** The longest prefix of [s] made of digits, and what follows it. *)
Fixpoint takeDigits (s : string) : string * string :=
  match s with
  | String c s' =>
      if isDigit c
      then let '(d, r) := takeDigits s' in (String c d, r)
      else ("", s)
  | "" => ("", "")
  end.

Fixpoint digitsValue (acc : Z) (s : string) : Z :=
  match s with
  | "" => acc
  | String c s' => digitsValue (10 * acc + (Z.of_N (N_of_ascii c) - 48)) s'
  end.

(** *** The Number value of a real

    The integer nearest to [a / b], for [0 <= a] and [0 < b]; of two
    integers equally near, the even one. *)
Definition roundHalfEven (a b : Z) : Z :=
  let f := (a / b)%Z in
  match (2 * (a mod b) ?= b)%Z with
  | Lt => f
  | Gt => (f + 1)%Z
  | Eq => if Z.even f then f else (f + 1)%Z
  end.

(** The integer [k] with [2 ^ k <= n / d < 2 ^ (k + 1)], for positive [n]
    and [d]. *)
Definition binaryExponent (n d : Z) : Z :=
  let k := (Z.log2 n - Z.log2 d)%Z in
  if (d * 2 ^ Z.max 0 k <=? n * 2 ^ Z.max 0 (- k))%Z then k else (k - 1)%Z.

(** The double nearest to [n / d], for positive [n] and [d]: a double is
    [m * 2 ^ e] with an integer [m] of at most 53 bits and [e >= -1074], so
    [n / d] is rounded to a multiple of [2 ^ e] for the [e] of its binade.
    The result is given in lowest terms. (From [2 ^ 1024] on the language
    gives [Infinity], which is not a value of the model.) *)
Definition roundPositive (n d : Z) : Q :=
  let e := Z.max (-1074) (binaryExponent n d - 52) in
  let m := roundHalfEven (n * 2 ^ Z.max 0 (- e)) (d * 2 ^ Z.max 0 e) in
  Qred (Qmake (m * 2 ^ Z.max 0 e) (Z.to_pos (2 ^ Z.max 0 (- e)))).

(** The Number value of [q]: round to nearest, ties to even. *)
Definition roundToDouble (q : Q) : Q :=
  match Qnum q with
  | Z0 => 0
  | Zpos _ => roundPositive (Qnum q) (Zpos (Qden q))
  | Zneg _ => Qopp (roundPositive (- Qnum q) (Zpos (Qden q)))
  end.

(** [parseFloat] on the decimal literals without sign and exponent (the
    capture of [marksRegExp] holds no other text): the longest prefix
    [digits], [digits.digits], [digits.] or [.digits] gives the number, the
    double nearest to the decimal value of that prefix, and a text without
    such a prefix gives [NaN]. *)
Definition parseFloat (s : string) : number :=
  let '(ip, r) := takeDigits s in
  let fp := match r with
            | String "."%char r' => fst (takeDigits r')
            | _ => ""
            end in
  if String.eqb ip "" && String.eqb fp "" then NaN
  else
    let scale := (10 ^ Z.of_nat (String.length fp))%Z in
    Num (roundToDouble
           (Qmake (digitsValue 0 ip * scale + digitsValue 0 fp) (Z.to_pos scale))).

(** ** Regular expressions

    The fragment of ECMAScript patterns the component uses, with the
    backtracking semantics of the language: the matcher of a pattern maps a
    state to the list of its ways to match there, in the order in which
    backtracking tries them, each with the text it consumed. *)

Inductive regex : Type :=
| Empty
| Char (c : ascii)
| Digit                                       (* \d *)
| WordBoundary                                (* \b *)
| Seq (a b : regex)
| Alt (a b : regex)                           (* a|b *)
| Repeat (min : nat) (max : option nat) (a : regex)   (* greedy a{min,max} *)
| Group (a : regex).                          (* the capturing group 1 *)

Record RegExp : Type := {
  pattern : regex;
  ignoreCase : bool
}.

(** [prev] is the character before the current position, [rest] the text
    from the current position on, [cap1] the capture of group 1. *)
Record mstate : Type := {
  prev : option ascii;
  rest : string;
  cap1 : option string
}.

Definition headChar (s : string) : option ascii :=
  match s with
  | "" => None
  | String c _ => Some c
  end.

Definition isWordAt (c : option ascii) : bool :=
  match c with
  | Some ch => isWordChar ch
  | None => false
  end.

(** Comparison of a character of the text with one of the pattern: with
    the flag [i] both are canonicalized (to upper case). *)
Definition charMatches (ic : bool) (ch c : ascii) : bool :=
  if ic then Ascii.eqb (upperChar ch) (upperChar c) else Ascii.eqb ch c.

Definition consume (st : mstate) (p : ascii -> bool) : list (string * mstate) :=
  match rest st with
  | String ch rest' =>
      if p ch
      then [(String ch "", {| prev := Some ch; rest := rest'; cap1 := cap1 st |})]
      else []
  | "" => []
  end.

Definition andThen (ms : list (string * mstate))
    (k : mstate -> list (string * mstate)) : list (string * mstate) :=
  flat_map (fun '(w1, st1) => map (fun '(w2, st2) => (w1 ++ w2, st2)) (k st1)) ms.

(** Greedy repetition: at most [n] further iterations, at least [min]. One
    more iteration is tried before stopping, and an iteration that consumed
    nothing is refused once [min] is reached. *)
Fixpoint repeatGreedy (step : mstate -> list (string * mstate)) (n min : nat)
    (st : mstate) : list (string * mstate) :=
  let stop := match min with O => [("", st)] | S _ => [] end in
  match n with
  | O => stop
  | S n' =>
      flat_map (fun '(w1, st1) =>
                  if negb (String.eqb w1 "") || (0 <? min)%nat
                  then map (fun '(w2, st2) => (w1 ++ w2, st2))
                           (repeatGreedy step n' (pred min) st1)
                  else [])
               (step st)
      ++ stop
  end.

(** An unbounded repetition makes at most [min + length rest] iterations,
    since each one beyond [min] consumes a character. *)
Fixpoint rmatch (ic : bool) (r : regex) (st : mstate) : list (string * mstate) :=
  match r with
  | Empty => [("", st)]
  | Char c => consume st (fun ch => charMatches ic ch c)
  | Digit => consume st isDigit
  | WordBoundary =>
      if xorb (isWordAt (prev st)) (isWordAt (headChar (rest st)))
      then [("", st)] else []
  | Seq a b => andThen (rmatch ic a st) (rmatch ic b)
  | Alt a b => rmatch ic a st ++ rmatch ic b st
  | Repeat min max a =>
      repeatGreedy (rmatch ic a)
        (match max with
         | Some k => k
         | None => min + String.length (rest st)
         end)%nat min st
  | Group a =>
      map (fun '(w, st') =>
             (w, {| prev := prev st'; rest := rest st'; cap1 := Some w |}))
          (rmatch ic a st)
  end.

(** The array [String.prototype.match] returns for a pattern without the
    flag [g]: where the match starts, the matched text and the capture of
    group 1 ([None] is [undefined]). *)
Record MatchResult : Type := {
  index : nat;
  whole : string;
  group1 : option string
}.

(** The start positions are tried from left to right. *)
Fixpoint search (re : RegExp) (i : nat) (before : option ascii) (s : string)
  : option MatchResult :=
  match rmatch (ignoreCase re) (pattern re)
               {| prev := before; rest := s; cap1 := None |} with
  | (w, st) :: _ => Some {| index := i; whole := w; group1 := cap1 st |}
  | [] =>
      match s with
      | "" => None
      | String c s' => search re (S i) (Some c) s'
      end
  end.

(** [s.match(re)]; [None] is [null]. *)
Definition stringMatch (s : string) (re : RegExp) : option MatchResult :=
  search re 0 None s.

Fixpoint lit (s : string) : regex :=
  match s with
  | "" => Empty
  | String c s' => Seq (Char c) (lit s')
  end.

(** [/\b(\d{1,3}(?:\.\d+)?)\b/] *)
Definition marksRegExp : RegExp :=
  {| pattern :=
       Seq WordBoundary
         (Seq (Group (Seq (Repeat 1 (Some 3) Digit)
                          (Repeat 0 (Some 1)
                             (Seq (Char ".") (Repeat 1 None Digit)))))
              WordBoundary);
     ignoreCase := false |}.

(** [/\b(oc|bc|bcm|mbc|sc|sca|st)\b/i] *)
Definition categoryRegExp : RegExp :=
  {| pattern :=
       Seq WordBoundary
         (Seq (Group (Alt (lit "oc") (Alt (lit "bc") (Alt (lit "bcm")
                     (Alt (lit "mbc") (Alt (lit "sc") (Alt (lit "sca")
                          (lit "st"))))))))
              WordBoundary);
     ignoreCase := true |}.

(** ** Replies

    The text of a reply is a list of segments: the literal text of the
    source and the values a template literal substitutes (kept as values:
    the conversion of a number to its decimal text is not modelled). *)

Inductive Segment : Type :=
| Lit (s : string)
| SubstNumber (n : number)
| SubstString (s : string).

Record Reply : Type := {
  content : list Segment;
  suggestions : option (list CollegeSuggestion)
}.

Definition greetingText : string :=
  "Hello! Great to meet you! I'm Zudora, your AI college counselor. I specialize in helping students find the perfect engineering colleges based on their TNEA cutoff marks and category. How can I assist you today?".

Definition wellBeingText : string :=
  "I'm doing wonderful, thank you for asking! I'm here and ready to help you navigate the college selection process. Whether you need college suggestions, cutoff information, or guidance about engineering branches, I'm here to help!".

Definition askDetailsText : string :=
  "I'd be happy to help you with college suggestions! To provide you with the most relevant recommendations, I'll need to know:

1. Your cutoff marks (TNEA score)
2. Your category (OC, BC, BCM, MBC, SC, SCA, or ST)

For example, you can say: 'I scored 185 marks in BC category' or 'My cutoff is 170 and I'm in MBC category.'".

Definition defaultText : string :=
  "I'm here to help you find the best engineering colleges based on your TNEA cutoff marks and category. You can ask me things like:

• 'I scored 185 marks in BC category'
• 'What colleges can I get with 175 cutoff in OC?'
• 'Show me CSE colleges for MBC category'

Feel free to share your marks and category, and I'll provide personalized college suggestions!".

Definition foundText (marks : number) (category : string) (n : nat)
  : list Segment :=
  [ Lit "Great! Based on your cutoff marks of ";
    SubstNumber marks;
    Lit " and ";
    SubstString category;
    Lit " category, I found ";
    SubstNumber (Num (inject_Z (Z.of_nat n)));
    Lit " excellent college options for you. Here are the top colleges where you have a good chance of admission:" ].

Definition noMatchText (marks : number) (category : string) : list Segment :=
  [ Lit "I understand you have ";
    SubstNumber marks;
    Lit " marks in ";
    SubstString category;
    Lit " category. Unfortunately, I couldn't find colleges that match these specific criteria in my current database. You might want to consider:
          
          1. Checking if there are any updates to cutoffs
          2. Looking at colleges with slightly lower requirements
          3. Exploring different engineering branches
          
          Would you like me to help you with a different marks range or category?" ].

(** ** Exceptions and the log of matcher calls *)

Inductive exn : Type :=
| TypeError.

Inductive outcome (A : Type) : Type :=
| Return (a : A)
| Throw (e : exn).
Arguments Return {A} a.
Arguments Throw {A} e.

(** One call of [findCollegesByMarks]: its arguments. *)
Definition call : Type := number * string.

(** A computation reads the log of the calls made so far, and gives a
    result or an exception together with the extended log. *)
Definition M (A : Type) : Type := list call -> outcome A * list call.

Definition ret {A} (a : A) : M A := fun log => (Return a, log).

Definition throw {A} (e : exn) : M A := fun log => (Throw e, log).

Definition bind {A B} (c : M A) (k : A -> M B) : M B :=
  fun log =>
    match c log with
    | (Return a, log') => k a log'
    | (Throw e, log') => (Throw e, log')
    end.

Notation "'let!' x ':=' c 'in' k" := (bind c (fun x => k))
  (at level 10, x name, c at level 100, k at level 200).

(** A computation run from the empty log. *)
Definition run {A} (c : M A) : outcome A * list call := c [].

(** [m[1]]: a [TypeError] when [m] is [null]. *)
Definition at1 (m : option MatchResult) : M (option string) :=
  match m with
  | Some r => ret (group1 r)
  | None => throw TypeError
  end.

(** [v.toUpperCase()]: a [TypeError] when [v] is [undefined]. *)
Definition toUpperCaseOf (v : option string) : M string :=
  match v with
  | Some s => ret (toUpperCase s)
  | None => throw TypeError
  end.

(** [parseFloat(v)]: [undefined] is read as the text undefined, which is
    not a number. *)
Definition parseFloatOf (v : option string) : number :=
  match v with
  | Some s => parseFloat s
  | None => NaN
  end.

(** ** The intent classifier *)

Section Classifier.

Variable tnea_colleges : list College.

(** The call [findCollegesByMarks(marks, category)], entered in the log. *)
Definition callMatcher (marks : number) (category : string)
  : M (list CollegeSuggestion) :=
  fun log => (Return (findCollegesByMarks tnea_colleges marks category),
              (log ++ [(marks, category)])%list).

Definition greetingReply : Reply :=
  {| content := [Lit greetingText]; suggestions := None |}.

Definition wellBeingReply : Reply :=
  {| content := [Lit wellBeingText]; suggestions := None |}.

Definition askDetailsReply : Reply :=
  {| content := [Lit askDetailsText]; suggestions := None |}.

Definition defaultReply : Reply :=
  {| content := [Lit defaultText]; suggestions := None |}.

Definition generateAIResponse (userInput : string) : M Reply :=
  let input := toLowerCase userInput in
  if includes input "hi" || includes input "hello" || includes input "hey"
  then ret greetingReply
  else if includes input "how are you" || includes input "how do you do"
  then ret wellBeingReply
  else
    let marksMatch := stringMatch input marksRegExp in
    let categoryMatch := stringMatch input categoryRegExp in
    if bool_decide (is_Some marksMatch) && bool_decide (is_Some categoryMatch)
    then
      let! m1 := at1 marksMatch in
      let marks := parseFloatOf m1 in
      let! c1 := at1 categoryMatch in
      let! category := toUpperCaseOf c1 in
      let! found := callMatcher marks category in
      if (0 <? length found)%nat
      then ret {| content := foundText marks category (length found);
                  suggestions := Some found |}
      else ret {| content := noMatchText marks category;
                  suggestions := None |}
    else if includes input "college" || includes input "engineering"
            || includes input "cutoff"
    then ret askDetailsReply
    else ret defaultReply.

End Classifier.

(** ** A small catalog for the examples *)

Definition cseBranch : Branch :=
  {| branch_name := "CSE";
     cutoffs_2024 := {[ "OC" := VNumber (Num 199.5);
                        "BC" := VNumber (Num 180) ]} |}.

Definition eceBranch : Branch :=
  {| branch_name := "ECE";
     cutoffs_2024 := {[ "OC" := VNumber (Num 195);
                        "BC" := VNumber (Num 185) ]} |}.

Definition civilBranch : Branch :=
  {| branch_name := "Civil";
     cutoffs_2024 := {[ "OC" := VNumber (Num 0);
                        "BC" := VNumber (Num 120) ]} |}.

Definition annaUniversity : College :=
  {| college_name := "Anna University";
     address := "Chennai";
     branches := [cseBranch; eceBranch] |}.

Definition openCollege : College :=
  {| college_name := "Open College";
     address := "Madurai";
     branches := [civilBranch] |}.

Definition sampleCatalog : list College := [annaUniversity; openCollege].

(** ** Notions of the specification *)

(** The guard of [visitBranch]: the branch has, for the category, a cutoff
    that is a number other than zero and that the marks reach. *)
Definition qualifies (marks : number) (category : string) (branch : Branch)
  : bool :=
  match getProp (cutoffs_2024 branch) category with
  | VNumber c => truthy (VNumber c) && number_ge marks c
  | _ => false
  end.

Definition noneQualify (tnea_colleges : list College) (marks : number)
    (category : string) : Prop :=
  ∀ college branch,
    In college tnea_colleges → In branch (branches college) →
    qualifies marks category branch = false.

Definition categoryCodes : list string :=
  [ "OC"; "BC"; "BCM"; "MBC"; "SC"; "SCA"; "ST" ].

Definition greetingTokens : list string := [ "hi"; "hello"; "hey" ].

(** The invariant the specification states for a catalog: every cutoff is
    a number that is not negative, under one of the seven category codes. *)
Definition isCutoffEntry (k : string) (v : value) : Prop :=
  In k categoryCodes ∧
  match v with
  | VNumber (Num q) => Qle_bool 0 q = true
  | _ => False
  end.

Definition catalogInvariant (tnea_colleges : list College) : Prop :=
  Forall (fun college =>
            Forall (fun branch => map_Forall isCutoffEntry (cutoffs_2024 branch))
                   (branches college))
         tnea_colleges.

(** The two halves of the invariant, each on its own, and a little less
    than the second: a catalog whose cutoff mappings have no key other
    than the seven codes, and a catalog in which no cutoff is a negative
    number. *)
Definition everyEntry (P : string → value → Prop) (tnea_colleges : list College)
  : Prop :=
  Forall (fun college =>
            Forall (fun branch => map_Forall P (cutoffs_2024 branch))
                   (branches college))
         tnea_colleges.

Definition keysAreCategoryCodes (tnea_colleges : list College) : Prop :=
  everyEntry (fun k _ => In k categoryCodes) tnea_colleges.

Definition noNegativeCutoff (tnea_colleges : list College) : Prop :=
  everyEntry (fun _ v => ∀ q, v = VNumber (Num q) → Qle_bool 0 q = true)
             tnea_colleges.

(** The suggestions are in the order of non-increasing cutoff. *)
Definition cutoffGe (a b : CollegeSuggestion) : Prop :=
  number_ge (cutoff a) (cutoff b) = true.

Definition hasCutoff (sug : CollegeSuggestion) : Prop :=
  ∃ q, cutoff sug = Num q.

Fixpoint lastChar (s : string) : option ascii :=
  match s with
  | "" => None
  | String c "" => Some c
  | String _ s' => lastChar s'
  end.

Fixpoint allChars (p : ascii -> bool) (s : string) : bool :=
  match s with
  | "" => true
  | String c s' => p c && allChars p s'
  end.

(** [w] stands in [text] from position [i] on as a token: the character
    before it and the character after it, if any, are not word
    characters. *)
Definition occurs (text : string) (i : nat) (w : string) : Prop :=
  ∃ pre post,
    text = pre ++ w ++ post ∧ String.length pre = i ∧
    isWordAt (lastChar pre) = false ∧ isWordAt (headChar post) = false.

(** A score: one to three digits, and possibly a point and digits. *)
Definition isScoreText (w : string) : Prop :=
  ∃ ip fp,
    w = ip ++ fp ∧ allChars isDigit ip = true ∧
    (1 <= String.length ip <= 3)%nat ∧
    (fp = "" ∨
     ∃ d, fp = String "."%char d ∧ d ≠ "" ∧ allChars isDigit d = true).

(** A category code, in any casing. *)
Definition isCategoryText (w : string) : Prop :=
  In (toUpperCase w) categoryCodes.

(** The first token of a kind: none of the kind starts further left, and
    none starting at the same place is longer. *)
Definition firstToken (P : string -> Prop) (text w : string) : Prop :=
  ∃ i,
    occurs text i w ∧ P w ∧
    ∀ i' w', occurs text i' w' → P w' →
             (i <= i')%nat ∧ (i' = i → (String.length w' <= String.length w)%nat).

(** The reply of the classifier for the marks and the category it
    extracted, given what the matcher returned. *)
Definition matcherReply (marks : number) (category : string)
    (found : list CollegeSuggestion) : Reply :=
  if (0 <? length found)%nat
  then {| content := foundText marks category (length found);
          suggestions := Some found |}
  else {| content := noMatchText marks category; suggestions := None |}.

(** The three tests on keywords of the classifier. *)
Definition isGreeting (input : string) : bool :=
  includes input "hi" || includes input "hello" || includes input "hey".

Definition isWellBeing (input : string) : bool :=
  includes input "how are you" || includes input "how do you do".

Definition isCollegeQuery (input : string) : bool :=
  includes input "college" || includes input "engineering"
  || includes input "cutoff".

(** ** Notions used to reason about the pattern matcher *)

(** A pattern of the form [\b(...)\b]. *)
Definition framed (re : RegExp) (a : regex) : Prop :=
  pattern re = Seq WordBoundary (Seq (Group a) WordBoundary).

(** The last character of [w], or [p] when [w] is empty. *)
Fixpoint lastOr (p : option ascii) (w : string) : option ascii :=
  match w with
  | "" => p
  | String c w' => lastOr (Some c) w'
  end.

(** The state once [w] is consumed and [r] is left. *)
Definition advance (st : mstate) (w r : string) : mstate :=
  {| prev := lastOr (prev st) w; rest := r; cap1 := cap1 st |}.

(** The test of [\b] in a state. *)
Definition atBoundary (st : mstate) : bool :=
  xorb (isWordAt (prev st)) (isWordAt (headChar (rest st))).

(** The matches that end at a word boundary. *)
Definition keep (ms : list (string * mstate)) : list (string * mstate) :=
  List.filter (fun m => atBoundary (snd m)) ms.

(** What [Group] does to a match. *)
Definition capture (m : string * mstate) : string * mstate :=
  (fst m, {| prev := prev (snd m); rest := rest (snd m); cap1 := Some (fst m) |}).

(** A match extended on the left by the text [w1]. *)
Definition extend (w1 : string) (m : string * mstate) : string * mstate :=
  (w1 ++ fst m, snd m).

(** The matches of [(?:\.\d+)?] that end at a word boundary, from a state
    that comes after a word character: the point with all the digits that
    follow it, and then the empty match. *)
Definition scoreTail (st : mstate) : list (string * mstate) :=
  (match rest st with
   | String c s2 =>
       if Ascii.eqb c "."
          && (1 <=? String.length (fst (takeDigits s2)))%nat
          && negb (isWordAt (headChar (snd (takeDigits s2))))
       then [(String c (fst (takeDigits s2)),
              {| prev := lastOr (Some c) (fst (takeDigits s2));
                 rest := snd (takeDigits s2);
                 cap1 := cap1 st |})]
       else []
   | "" => []
   end ++
   if negb (isWordAt (headChar (rest st))) then [("", st)] else [])%list.

(** The matches of the pattern of [marksRegExp] where the text [s] comes
    after the character [p], in closed form. *)
Definition scoreMatches (p : option ascii) (s : string) : list (string * mstate) :=
  if negb (isWordAt p)
     && (1 <=? String.length (fst (takeDigits s)))%nat
     && (String.length (fst (takeDigits s)) <=? 3)%nat
  then map capture
         (map (extend (fst (takeDigits s)))
            (scoreTail (advance {| prev := p; rest := s; cap1 := None |}
                          (fst (takeDigits s)) (snd (takeDigits s)))))
  else [].

(** What links a pattern to a kind of token. Every match of the pattern is
    a token of the kind: it is not preceded and not followed by a word
    character. *)
Definition tokenSound (re : RegExp) (P : string → Prop) : Prop :=
  ∀ p s w st',
    In (w, st') (rmatch (ignoreCase re) (pattern re)
                   {| prev := p; rest := s; cap1 := None |}) →
    P w ∧ isWordAt p = false ∧
    ∃ post, s = w ++ post ∧ isWordAt (headChar post) = false.

(** Where a token of the kind stands, the pattern matches, and the match
    that backtracking finds first is at least as long as the token. *)
Definition tokenComplete (re : RegExp) (P : string → Prop) : Prop :=
  ∀ p w post,
    P w → isWordAt p = false → isWordAt (headChar post) = false →
    ∃ w0 st0 l,
      rmatch (ignoreCase re) (pattern re)
        {| prev := p; rest := w ++ post; cap1 := None |} = (w0, st0) :: l ∧
      (String.length w <= String.length w0)%nat.

(** The matches of a pattern where [s] comes after [pre]. *)
Definition matchesAt (re : RegExp) (pre s : string) : list (string * mstate) :=
  rmatch (ignoreCase re) (pattern re)
    {| prev := lastChar pre; rest := s; cap1 := None |}.

(** ** Notions for the further properties of the matcher *)

(** The suggestions whose cutoff is the number [q]. *)
Definition cutoffIs (q : Q) (sug : CollegeSuggestion) : bool :=
  match cutoff sug with
  | Num x => Qeq_bool x q
  | NaN => false
  end.

(** The pairs of a college and one of its branches that qualify, in the
    order of the catalog. *)
Definition qualifying (tnea_colleges : list College) (marks : number)
    (category : string) : list (College * Branch) :=
  flat_map (fun college =>
              map (pair college)
                  (List.filter (qualifies marks category) (branches college)))
           tnea_colleges.

(** ** Trimming *)

(** The white space and the line terminators of the ASCII fragment: tab,
    line feed, vertical tab, form feed, carriage return and space. *)
Definition isWhiteSpace (c : ascii) : bool :=
  match N_of_ascii c with
  | 9 | 10 | 11 | 12 | 13 | 32 => true
  | _ => false
  end%N.

Fixpoint trimStart (s : string) : string :=
  match s with
  | "" => ""
  | String c s' => if isWhiteSpace c then trimStart s' else s
  end.

Fixpoint trimEnd (s : string) : string :=
  match s with
  | "" => ""
  | String c s' =>
      match trimEnd s' with
      | "" => if isWhiteSpace c then "" else String c ""
      | t => String c t
      end
  end.

(** [s.trim()] *)
Definition trim (s : string) : string := trimEnd (trimStart s).

(** ** Notions used to compare the matches of two texts *)

(** [w] is a token of the kind [P] at the start of [x], after the
    character [b]. *)
Definition tokenAt (P : string → Prop) (b : option ascii) (x w : string) : Prop :=
  P w ∧ isWordAt b = false ∧
  ∃ post, x = w ++ post ∧ isWordAt (headChar post) = false.

(** The tokens of the kind start with a word character and hold no white
    space. *)
Definition tokenText (P : string → Prop) : Prop :=
  ∀ w, P w →
       isWordAt (headChar w) = true ∧
       allChars (fun c => negb (isWhiteSpace c)) w = true.

(** What the classifier reads of a match: the matched text and group 1. *)
Definition matchText (m : option MatchResult) : option (string * option string) :=
  option_map (fun r => (whole r, group1 r)) m.

(** ** The chat component

    The state of [ChatInterface] and its handlers, as functions on the
    state. The clock is read by the caller: [now] is the value of
    [Date.now()] and a stamp is the time of [new Date()], both in
    milliseconds. The replies scheduled by [setTimeout] wait in [timers],
    oldest first, each with the content of the user message its callback
    holds; the notices given to [toast] are collected in [toasts]. The
    conversion of a number to its decimal text, [numberToString], is a
    parameter. *)

Inductive Role : Type :=
| User
| Ai.

Record Message : Type := {
  msg_id : string;
  msg_type : Role;
  msg_content : string;
  msg_timestamp : Z;
  msg_suggestions : option (list CollegeSuggestion)
}.

Record ChatEntry : Type := {
  chat_id : string;
  title : string;
  chat_timestamp : Z
}.

Record Toast : Type := {
  toast_title : string;
  description : string;
  variant : option string
}.

Record AppState : Type := {
  messages : list Message;
  inputValue : string;
  isLoading : bool;
  isSidebarOpen : bool;
  isListening : bool;
  chatHistory : list ChatEntry;
  timers : list string;
  toasts : list Toast
}.

Definition welcomeText : string :=
  "Hello! I'm Zudora, your college suggestion assistant. I can help you find the best engineering colleges based on your cutoff marks and category. Please share your marks and category (OC, BC, BCM, MBC, SC, SCA, ST) to get personalized suggestions!".

Definition welcomeMessage (stamp : Z) : Message :=
  {| msg_id := "1"; msg_type := Ai; msg_content := welcomeText;
     msg_timestamp := stamp; msg_suggestions := None |}.

(** The state when the component is mounted. *)
Definition initialState (stamp0 stamp1 stamp2 : Z) : AppState :=
  {| messages := [welcomeMessage stamp0];
     inputValue := "";
     isLoading := false;
     isSidebarOpen := true;
     isListening := false;
     chatHistory :=
       [ {| chat_id := "1"; title := "College suggestions for CSE";
            chat_timestamp := stamp1 |};
         {| chat_id := "2"; title := "Cutoff marks query";
            chat_timestamp := stamp2 |} ];
     timers := [];
     toasts := [] |}.

(** [s.slice(0, n)] *)
Fixpoint sliceTo (n : nat) (s : string) : string :=
  match n, s with
  | S n', String c s' => String c (sliceTo n' s')
  | _, _ => ""
  end.

(** The title of a saved chat, from the content of its first user
    message. *)
Definition chatTitle (content : string) : string :=
  sliceTo 30 content ++ (if (30 <? String.length content)%nat then "..." else "").

Definition isUserMessage (m : Message) : bool :=
  match msg_type m with
  | User => true
  | Ai => false
  end.

Definition newChatToast : Toast :=
  {| toast_title := "New chat started";
     description := "Previous conversation saved to history";
     variant := None |}.

Definition historyClearedToast : Toast :=
  {| toast_title := "Chat history cleared";
     description := "All previous conversations have been deleted";
     variant := Some "destructive" |}.

Section ChatInterface.

Variable tnea_colleges : list College.
Variable numberToString : number → string.

Definition renderSegment (seg : Segment) : string :=
  match seg with
  | Lit s => s
  | SubstNumber n => numberToString n
  | SubstString s => s
  end.

(** The text a template literal evaluates to. *)
Fixpoint renderContent (segs : list Segment) : string :=
  match segs with
  | [] => ""
  | seg :: segs' => renderSegment seg ++ renderContent segs'
  end.

(** [setInputValue(v)]: the input changes, by typing or by dictation. *)
Definition setInputValue (v : string) (st : AppState) : AppState :=
  {| messages := messages st; inputValue := v; isLoading := isLoading st;
     isSidebarOpen := isSidebarOpen st; isListening := isListening st;
     chatHistory := chatHistory st; timers := timers st; toasts := toasts st |}.

Definition handleSendMessage (now stamp : Z) (st : AppState) : AppState :=
  if String.eqb (trim (inputValue st)) "" then st
  else
    let userMessage :=
      {| msg_id := numberToString (Num (inject_Z now));
         msg_type := User;
         msg_content := trim (inputValue st);
         msg_timestamp := stamp;
         msg_suggestions := None |} in
    {| messages := messages st ++ [userMessage];
       inputValue := "";
       isLoading := true;
       isSidebarOpen := isSidebarOpen st; isListening := isListening st;
       chatHistory := chatHistory st;
       timers := timers st ++ [msg_content userMessage];
       toasts := toasts st |}.

(** The callback given to [setTimeout], for the user message of content
    [userContent]. An exception of the classifier would leave the callback
    before it changes the state. *)
Definition replyCallback (userContent : string) (now stamp : Z) (st : AppState)
  : AppState :=
  match fst (run (generateAIResponse tnea_colleges userContent)) with
  | Return aiResponse =>
      let aiMessage :=
        {| msg_id := numberToString (Num (inject_Z (now + 1)));
           msg_type := Ai;
           msg_content := renderContent (content aiResponse);
           msg_timestamp := stamp;
           msg_suggestions := suggestions aiResponse |} in
      {| messages := messages st ++ [aiMessage];
         inputValue := inputValue st;
         isLoading := false;
         isSidebarOpen := isSidebarOpen st; isListening := isListening st;
         chatHistory := chatHistory st; timers := timers st;
         toasts := toasts st |}
  | Throw _ => st
  end.

(** The oldest timer expires: its callback runs. *)
Definition timerFires (now stamp : Z) (st : AppState) : AppState :=
  match timers st with
  | [] => st
  | userContent :: waiting =>
      replyCallback userContent now stamp
        {| messages := messages st; inputValue := inputValue st;
           isLoading := isLoading st;
           isSidebarOpen := isSidebarOpen st; isListening := isListening st;
           chatHistory := chatHistory st; timers := waiting;
           toasts := toasts st |}
  end.

Definition handleKeyPress (key : string) (shiftKey : bool) (now stamp : Z)
    (st : AppState) : AppState :=
  if String.eqb key "Enter" && negb shiftKey
  then handleSendMessage now stamp st
  else st.

Definition handleNewChat (now stamp stampWelcome : Z) (st : AppState) : AppState :=
  let userMessages := List.filter isUserMessage (messages st) in
  {| messages := [welcomeMessage stampWelcome];
     inputValue := "";
     isLoading := isLoading st;
     isSidebarOpen := isSidebarOpen st; isListening := isListening st;
     chatHistory :=
       match userMessages with
       | first :: _ =>
           {| chat_id := numberToString (Num (inject_Z now));
              title := chatTitle (msg_content first);
              chat_timestamp := stamp |} :: chatHistory st
       | [] => chatHistory st
       end;
     timers := timers st;
     toasts := toasts st ++ [newChatToast] |}.

Definition handleDeleteHistory (st : AppState) : AppState :=
  {| messages := messages st; inputValue := inputValue st;
     isLoading := isLoading st;
     isSidebarOpen := isSidebarOpen st; isListening := isListening st;
     chatHistory := [];
     timers := timers st;
     toasts := toasts st ++ [historyClearedToast] |}.

(** What can happen to the component. The input field and the send
    button are disabled while [isLoading] holds, so a key press in the
    field and a click on the button come only when it does not; the button
    is also disabled on a blank input. *)
Inductive step : AppState → AppState → Prop :=
| step_input st v :
    step st (setInputValue v st)
| step_key st key shiftKey now stamp :
    isLoading st = false →
    step st (handleKeyPress key shiftKey now stamp st)
| step_send st now stamp :
    isLoading st = false → trim (inputValue st) ≠ "" →
    step st (handleSendMessage now stamp st)
| step_timer st now stamp :
    timers st ≠ [] →
    step st (timerFires now stamp st)
| step_newChat st now stamp stampWelcome :
    step st (handleNewChat now stamp stampWelcome st)
| step_deleteHistory st :
    step st (handleDeleteHistory st).

(** The states the component can be in. *)
Definition reachable (st : AppState) : Prop :=
  ∃ stamp0 stamp1 stamp2, rtc step (initialState stamp0 stamp1 stamp2) st.

(** A text as a user message holds it: not empty, and with no white space
    around it. *)
Definition isTrimmed (s : string) : Prop := trim s = s ∧ s ≠ "".

End ChatInterface.

(** What every state of the component keeps. *)
Definition conversationInvariant (st : AppState) : Prop :=
  (if isLoading st then ∃ c, timers st = [c] else timers st = [])
  ∧ (∃ stamp rest, messages st = welcomeMessage stamp :: rest)
  ∧ Forall (fun m => msg_type m = User → isTrimmed (msg_content m)) (messages st)
  ∧ Forall isTrimmed (timers st)
  ∧ Forall (fun e => title e ≠ "" ∧ (String.length (title e) <= 33)%nat)
           (chatHistory st)
  ∧ Forall (fun m => ∀ found, msg_suggestions m = Some found →
                               (1 <= length found <= 10)%nat)
           (messages st).

(** A conversion of numbers to text for the examples: the decimal digits
    of an integer, as JavaScript writes them; the examples convert no other
    number. *)
Definition sampleNumberToString (n : number) : string :=
  match n with
  | Num (Qmake z 1) => NilZero.string_of_int (Z.to_int z)
  | _ => "NaN"
  end.

(** ** The matcher on the heap

    [findCollegesByMarks] once more, with the arrays it works on as objects
    of a heap, which is what one call leaves to the next: the literal [[]]
    allocates an array, [push] and [sort] change an array in place, [slice]
    allocates the array it returns. An array is named by its place in the
    heap, and a new one is put after those that exist. The catalog is the
    object [collegesData] that the module imports; every call finds it in
    the heap. *)
Module Imperative.

Record heap : Type := {
  collegesData : list College;
  arrays : list (list CollegeSuggestion)
}.

Definition St (A : Type) : Type := heap → A * heap.

Definition ret {A} (a : A) : St A := fun h => (a, h).

Definition bind {A B} (c : St A) (k : A → St B) : St B :=
  fun h => let '(a, h') := c h in k a h'.

Definition store (l : nat) (a : list CollegeSuggestion) (h : heap) : heap :=
  {| collegesData := collegesData h; arrays := <[l := a]> (arrays h) |}.

(** [[]] *)
Definition newArray : St nat :=
  fun h => (length (arrays h),
            {| collegesData := collegesData h; arrays := (arrays h ++ [[]])%list |}).

(** [a.push(x)] *)
Definition push (l : nat) (x : CollegeSuggestion) : St unit :=
  fun h => match arrays h !! l with
           | Some a => (tt, store l (a ++ [x])%list h)
           | None => (tt, h)
           end.

(** [a.sort(cmp)]: the array is sorted in place, and is the result. *)
Definition sort (l : nat) (cmp : CollegeSuggestion → CollegeSuggestion → number)
  : St nat :=
  fun h => match arrays h !! l with
           | Some a => (l, store l (array_sort cmp a) h)
           | None => (l, h)
           end.

(** [a.slice(0, n)]: a new array. *)
Definition slice (l : nat) (n : nat) : St nat :=
  fun h => (length (arrays h),
            {| collegesData := collegesData h;
               arrays := (arrays h ++ [take n (default [] (arrays h !! l))])%list |}).

(** [xs.forEach(body)] *)
Fixpoint forEach {A} (xs : list A) (body : A → St unit) : St unit :=
  match xs with
  | [] => ret tt
  | x :: xs' => bind (body x) (fun _ => forEach xs' body)
  end.

(** [collegesData.tnea_colleges] *)
Definition tnea_colleges : St (list College) := fun h => (collegesData h, h).

(** The callback of the inner [forEach]. *)
Definition visitBranch (marks : number) (category : string) (suggestions : nat)
    (college : College) (branch : Branch) : St unit :=
  let cutoff := getProp (cutoffs_2024 branch) category in
  match cutoff with
  | VNumber c =>
      if truthy cutoff && number_ge marks c
      then push suggestions (mkSuggestion college branch c)
      else ret tt
  | _ => ret tt
  end.

(** The callback of the outer [forEach]. *)
Definition visitCollege (marks : number) (category : string) (suggestions : nat)
    (college : College) : St unit :=
  forEach (branches college) (visitBranch marks category suggestions college).

Definition findCollegesByMarks (marks : number) (category : string) : St nat :=
  bind newArray (fun suggestions =>
  bind tnea_colleges (fun colleges =>
  bind (forEach colleges (visitCollege marks category suggestions)) (fun _ =>
  bind (sort suggestions byCutoffDesc) (fun sorted =>
  slice sorted 10)))).

(** The heap when the component is mounted: the catalog, and no array. *)
Definition initialHeap (catalog : list College) : heap :=
  {| collegesData := catalog; arrays := [] |}.

End Imperative.

(** * Properties of the matcher *)

Section MatcherFacts.

Context (tnea_colleges : list College) (marks : number) (category : string).

Lemma qualifies_number (branch : Branch) :
  qualifies marks category branch = true →
  ∃ q, getProp (cutoffs_2024 branch) category = VNumber (Num q)
       ∧ ¬ (q == 0)%Q ∧ number_ge marks (Num q) = true.
Proof.
  unfold qualifies.
  destruct (getProp _ _) as [| | |[|q]| |]; try discriminate.
  intros [Ht Hge]%andb_prop. exists q. split; [reflexivity|]. split; [|exact Hge].
  simpl in Ht. intros Hz. apply Qeq_bool_iff in Hz. rewrite Hz in Ht. discriminate.
Qed.

Lemma visitBranch_qualifies college acc branch :
  visitBranch marks category college acc branch =
  (acc ++ if qualifies marks category branch
          then match getProp (cutoffs_2024 branch) category with
               | VNumber c => [mkSuggestion college branch c]
               | _ => []
               end
          else [])%list.
Proof.
  unfold visitBranch, qualifies.
  destruct (getProp _ _) as [| | |n| |]; rewrite ?app_nil_r; try reflexivity.
  destruct (truthy (VNumber n) && number_ge marks n); rewrite ?app_nil_r; reflexivity.
Qed.

Lemma visitBranch_app college acc branch :
  visitBranch marks category college acc branch =
  (acc ++ visitBranch marks category college [] branch)%list.
Proof. rewrite !visitBranch_qualifies. reflexivity. Qed.

Lemma visitCollege_app acc college :
  visitCollege marks category acc college =
  (acc ++ flat_map (visitBranch marks category college []) (branches college))%list.
Proof.
  unfold visitCollege. generalize (branches college) as bs. intros bs.
  revert acc. induction bs as [|b bs IH]; intros acc; simpl.
  - rewrite app_nil_r. reflexivity.
  - rewrite IH, visitBranch_app, <- app_assoc. reflexivity.
Qed.

Lemma fold_visitCollege_app acc :
  fold_left (visitCollege marks category) tnea_colleges acc =
  (acc ++ flat_map (fun college =>
                      flat_map (visitBranch marks category college [])
                               (branches college))
                   tnea_colleges)%list.
Proof.
  revert acc. induction tnea_colleges as [|c cs IH]; intros acc; simpl.
  - rewrite app_nil_r. reflexivity.
  - rewrite IH, visitCollege_app, <- app_assoc. reflexivity.
Qed.

Lemma collect_flat_map :
  collect tnea_colleges marks category =
  flat_map (fun college =>
              flat_map (visitBranch marks category college []) (branches college))
           tnea_colleges.
Proof. unfold collect. rewrite fold_visitCollege_app. reflexivity. Qed.

(** What the loops push: one suggestion for each branch that qualifies. *)
Lemma In_collect (sug : CollegeSuggestion) :
  In sug (collect tnea_colleges marks category) ↔
  ∃ college branch q,
    In college tnea_colleges ∧ In branch (branches college) ∧
    getProp (cutoffs_2024 branch) category = VNumber (Num q) ∧
    ¬ (q == 0)%Q ∧ number_ge marks (Num q) = true ∧
    sug = mkSuggestion college branch (Num q).
Proof.
  rewrite collect_flat_map, in_flat_map. split.
  - intros (college & Hc & Hin). apply in_flat_map in Hin as (branch & Hb & Hin).
    rewrite visitBranch_qualifies in Hin. simpl in Hin.
    destruct (qualifies marks category branch) eqn:Hq; [|destruct Hin].
    destruct (qualifies_number _ Hq) as (q & Hget & Hnz & Hge).
    rewrite Hget in Hin. destruct Hin as [<-|[]].
    exists college, branch, q. auto 10.
  - intros (college & branch & q & Hc & Hb & Hget & Hnz & Hge & ->).
    exists college. split; [exact Hc|]. apply in_flat_map. exists branch.
    split; [exact Hb|]. rewrite visitBranch_qualifies. simpl.
    assert (qualifies marks category branch = true) as ->.
    { unfold qualifies. rewrite Hget. simpl. simpl in Hge. rewrite Hge, andb_true_r.
      destruct (Qeq_bool q 0) eqn:E; [|reflexivity].
      apply Qeq_bool_iff in E. contradiction. }
    rewrite Hget. left. reflexivity.
Qed.

End MatcherFacts.

(** ** The stable sort *)

Section SortFacts.

Context {A : Type} (cmp : A → A → number).

Lemma sort_insert_perm x l : Permutation (sort_insert cmp x l) (x :: l).
Proof.
  induction l as [|y l IH]; simpl; [reflexivity|].
  destruct (number_pos (cmp x y)); [|reflexivity].
  rewrite IH. apply perm_swap.
Qed.

Lemma array_sort_perm l : Permutation (array_sort cmp l) l.
Proof.
  induction l as [|x l IH]; simpl; [reflexivity|].
  rewrite sort_insert_perm, IH. reflexivity.
Qed.

Lemma In_array_sort x l : In x (array_sort cmp l) ↔ In x l.
Proof.
  split; apply Permutation_in; [|symmetry]; apply array_sort_perm.
Qed.

End SortFacts.

Lemma cutoffGe_trans a b c : cutoffGe a b → cutoffGe b c → cutoffGe a c.
Proof.
  unfold cutoffGe, number_ge.
  destruct (cutoff a), (cutoff b), (cutoff c); try discriminate.
  rewrite !Qle_bool_iff. intros H1 H2. eapply Qle_trans; eassumption.
Qed.

Lemma byCutoffDesc_pos a b :
  hasCutoff a → hasCutoff b →
  (number_pos (byCutoffDesc a b) = true → cutoffGe b a) ∧
  (number_pos (byCutoffDesc a b) = false → cutoffGe a b).
Proof.
  intros [x Hx] [y Hy]. unfold byCutoffDesc, cutoffGe. rewrite Hx, Hy. simpl.
  split; intros H.
  - apply negb_true_iff in H. apply Qle_bool_iff.
    destruct (Qlt_le_dec x y) as [Hlt|Hle]; [lra|].
    exfalso. assert (Qle_bool (y - x) 0 = true) as E; [|congruence].
    apply Qle_bool_iff. lra.
  - apply negb_false_iff in H. apply Qle_bool_iff in H. apply Qle_bool_iff. lra.
Qed.

Lemma sort_insert_sorted x l :
  hasCutoff x → Forall hasCutoff l →
  StronglySorted cutoffGe l →
  StronglySorted cutoffGe (sort_insert byCutoffDesc x l).
Proof.
  intros Hx Hl Hs. induction Hs as [|y l Hs IH Hy]; simpl.
  - repeat constructor.
  - apply Forall_cons_1 in Hl as [Hcy Hl].
    destruct (byCutoffDesc_pos x y Hx Hcy) as [Hpos Hneg].
    destruct (number_pos (byCutoffDesc x y)).
    + constructor; [apply IH; exact Hl|].
      apply Forall_forall. intros z Hz%list_elem_of_In.
      apply (Permutation_in _ (sort_insert_perm _ x l)) in Hz as [<-|Hz].
      * apply Hpos. reflexivity.
      * rewrite Forall_forall in Hy. apply Hy, list_elem_of_In, Hz.
    + constructor; [constructor; assumption|].
      constructor; [apply Hneg; reflexivity|].
      eapply Forall_impl; [exact Hy|]. intros z Hz.
      eapply cutoffGe_trans; [apply Hneg; reflexivity|exact Hz].
Qed.

Lemma array_sort_sorted l :
  Forall hasCutoff l → StronglySorted cutoffGe (array_sort byCutoffDesc l).
Proof.
  induction l as [|x l IH]; intros Hl; simpl; [constructor|].
  apply Forall_cons_1 in Hl as [Hx Hl].
  apply sort_insert_sorted; [exact Hx| |apply IH; exact Hl].
  apply Forall_forall. intros z Hz%list_elem_of_In%In_array_sort.
  rewrite Forall_forall in Hl. apply Hl, list_elem_of_In, Hz.
Qed.

Lemma In_take {A} (x : A) n l : In x (take n l) → In x l.
Proof. rewrite <- !list_elem_of_In. apply subseteq_take. Qed.

Lemma StronglySorted_take {A} (R : relation A) n l :
  StronglySorted R l → StronglySorted R (take n l).
Proof.
  intros Hs. revert n. induction Hs as [|x l Hs IH Hx]; intros [|n]; simpl;
    try constructor.
  - apply IH.
  - eapply Forall_forall. intros y Hy. rewrite Forall_forall in Hx. apply Hx.
    apply list_elem_of_In. apply list_elem_of_In in Hy. eapply In_take, Hy.
Qed.

Lemma collect_hasCutoff tnea_colleges marks category :
  Forall hasCutoff (collect tnea_colleges marks category).
Proof.
  apply Forall_forall. intros sug Hs%list_elem_of_In%In_collect.
  destruct Hs as (college & branch & q & _ & _ & _ & _ & _ & ->).
  exists q. reflexivity.
Qed.

Lemma In_findCollegesByMarks tnea_colleges marks category sug :
  In sug (findCollegesByMarks tnea_colleges marks category) →
  In sug (collect tnea_colleges marks category).
Proof. intros H%In_take. apply In_array_sort in H. exact H. Qed.

(** * The matcher on the heap *)

Lemma push_last cat hs acc x :
  Imperative.push (length hs) x
    {| Imperative.collegesData := cat; Imperative.arrays := (hs ++ [acc])%list |} =
  (tt, {| Imperative.collegesData := cat;
          Imperative.arrays := (hs ++ [acc ++ [x]])%list |}).
Proof.
  unfold Imperative.push, Imperative.store. cbn.
  rewrite list_lookup_middle by reflexivity.
  rewrite insert_app_r_alt, Nat.sub_diag by lia. reflexivity.
Qed.

Lemma forEach_visitBranch marks category college cat hs : ∀ bs acc,
  Imperative.forEach bs
    (Imperative.visitBranch marks category (length hs) college)
    {| Imperative.collegesData := cat; Imperative.arrays := (hs ++ [acc])%list |} =
  (tt, {| Imperative.collegesData := cat;
          Imperative.arrays :=
            (hs ++ [fold_left (visitBranch marks category college) bs acc])%list |}).
Proof.
  induction bs as [|b bs IH]; intros acc; [reflexivity|].
  cbn [Imperative.forEach fold_left]. unfold Imperative.bind.
  assert (Imperative.visitBranch marks category (length hs) college b
            {| Imperative.collegesData := cat; Imperative.arrays := (hs ++ [acc])%list |} =
          (tt, {| Imperative.collegesData := cat;
                  Imperative.arrays :=
                    (hs ++ [visitBranch marks category college acc b])%list |})) as ->.
  { unfold Imperative.visitBranch, visitBranch.
    destruct (getProp (cutoffs_2024 b) category) as [| |?|c|?|]; try reflexivity.
    destruct (truthy (VNumber c) && number_ge marks c); [|reflexivity].
    apply push_last. }
  apply IH.
Qed.

Lemma forEach_visitCollege marks category cat hs : ∀ cs acc,
  Imperative.forEach cs (Imperative.visitCollege marks category (length hs))
    {| Imperative.collegesData := cat; Imperative.arrays := (hs ++ [acc])%list |} =
  (tt, {| Imperative.collegesData := cat;
          Imperative.arrays :=
            (hs ++ [fold_left (visitCollege marks category) cs acc])%list |}).
Proof.
  induction cs as [|c cs IH]; intros acc; [reflexivity|].
  cbn [Imperative.forEach fold_left]. unfold Imperative.bind.
  unfold Imperative.visitCollege at 1. rewrite forEach_visitBranch. apply IH.
Qed.

Lemma lookup_returned {A} (l : list A) x y :
  (l ++ [x; y])%list !! S (length l) = Some y.
Proof.
  rewrite lookup_app_r by lia.
  replace (S (length l) - length l)%nat with 1%nat by lia. reflexivity.
Qed.

(** What a call does to the heap: two arrays are added after those that
    exist, the sorted one and the one returned, which holds what the
    matcher of the functional model returns for the catalog of the heap. *)
Lemma findCollegesByMarks_heap marks category h :
  Imperative.findCollegesByMarks marks category h =
  (S (length (Imperative.arrays h)),
   {| Imperative.collegesData := Imperative.collegesData h;
      Imperative.arrays :=
        (Imperative.arrays h ++
         [ sortedSuggestions (Imperative.collegesData h) marks category;
           findCollegesByMarks (Imperative.collegesData h) marks category ])%list |}).
Proof.
  destruct h as [cat hs].
  unfold Imperative.findCollegesByMarks, Imperative.bind, Imperative.newArray,
    Imperative.tnea_colleges.
  cbn [Imperative.collegesData Imperative.arrays].
  rewrite forEach_visitCollege.
  unfold Imperative.sort, Imperative.slice, Imperative.store.
  cbn [Imperative.collegesData Imperative.arrays].
  rewrite list_lookup_middle by reflexivity.
  cbn [Imperative.collegesData Imperative.arrays].
  rewrite insert_app_r_alt, Nat.sub_diag by lia. cbn [insert list_insert].
  rewrite list_lookup_middle by reflexivity.
  rewrite length_app, Nat.add_1_r, <- app_assoc. reflexivity.
Qed.

(** * The claims about the matcher *)

(** C1, as amended: for every score, every category and every branch of
    every college of the catalog, if the cutoff mapping of the branch holds
    for the category a number other than zero and the score reaches it,
    then the result of the matcher before the truncation to 10 contains the
    suggestion with that cutoff and the names of the college and the branch
    and the address of the college. *)
Theorem matcher_suggests_reached_cutoff
    (tnea_colleges : list College) (marks : number) (category : string)
    (college : College) (branch : Branch) (q : Q) :
  In college tnea_colleges → In branch (branches college) →
  cutoffs_2024 branch !! category = Some (VNumber (Num q)) →
  ¬ (q == 0)%Q →
  number_ge marks (Num q) = true →
  In {| sg_college_name := college_name college;
        sg_branch_name := branch_name branch;
        cutoff := Num q;
        sg_address := address college |}
     (sortedSuggestions tnea_colleges marks category).
Proof.
  intros Hc Hb Hget Hnz Hge. apply In_array_sort, In_collect.
  exists college, branch, q. unfold getProp. rewrite Hget. auto 10.
Qed.

(** C3: every suggestion the matcher returns has a cutoff that the score
    reaches. *)
Theorem matcher_cutoffs_within_marks
    (tnea_colleges : list College) (marks : number) (category : string) :
  Forall (fun sug => number_ge marks (cutoff sug) = true)
         (findCollegesByMarks tnea_colleges marks category).
Proof.
  apply Forall_forall.
  intros sug Hs%list_elem_of_In%In_findCollegesByMarks%In_collect.
  destruct Hs as (college & branch & q & _ & _ & _ & _ & Hge & ->). exact Hge.
Qed.

(** C4: the sequence the matcher returns is sorted by cutoff, non
    increasing, and holds at most 10 suggestions. *)
Theorem matcher_sorted_top10
    (tnea_colleges : list College) (marks : number) (category : string) :
  StronglySorted (fun a b => number_ge (cutoff a) (cutoff b) = true)
                 (findCollegesByMarks tnea_colleges marks category)
  ∧ (length (findCollegesByMarks tnea_colleges marks category) <= 10)%nat.
Proof.
  split.
  - apply StronglySorted_take, array_sort_sorted, collect_hasCutoff.
  - unfold findCollegesByMarks. rewrite length_take. lia.
Qed.

(** C9: the matcher is deterministic and idempotent. Whatever arrays the
    earlier calls have left in the heap, two calls with the same score and
    the same category, in two heaps that hold the same catalog, return
    arrays with the same suggestions in the same order, those the matcher
    of the functional model gives for that catalog; and a call changes
    neither the catalog nor an array that is in the heap before it, so what
    an earlier call returned stays as it was and the next call finds the
    same catalog again. *)
Theorem matcher_deterministic
    (h1 h2 : Imperative.heap) (marks : number) (category : string) :
  Imperative.collegesData h1 = Imperative.collegesData h2 →
  ∃ found,
    Imperative.arrays (snd (Imperative.findCollegesByMarks marks category h1))
      !! fst (Imperative.findCollegesByMarks marks category h1) = Some found
    ∧ Imperative.arrays (snd (Imperative.findCollegesByMarks marks category h2))
        !! fst (Imperative.findCollegesByMarks marks category h2) = Some found
    ∧ found = findCollegesByMarks (Imperative.collegesData h1) marks category
    ∧ Imperative.collegesData
        (snd (Imperative.findCollegesByMarks marks category h1)) =
      Imperative.collegesData h1
    ∧ ∀ l a,
        Imperative.arrays h1 !! l = Some a →
        Imperative.arrays (snd (Imperative.findCollegesByMarks marks category h1))
          !! l = Some a
        ∧ l ≠ fst (Imperative.findCollegesByMarks marks category h1).
Proof.
  intros Hcat. rewrite !findCollegesByMarks_heap. cbn [fst snd].
  cbn [Imperative.collegesData Imperative.arrays]. rewrite <- Hcat.
  exists (findCollegesByMarks (Imperative.collegesData h1) marks category).
  split; [|split; [|split; [reflexivity|split; [reflexivity|]]]].
  - apply lookup_returned.
  - apply lookup_returned.
  - intros l a Hl. pose proof (lookup_lt_Some _ _ _ Hl) as Hlt.
    split; [|lia]. rewrite lookup_app_l by exact Hlt. exact Hl.
Qed.

(** C10: for a score that is at least 0, no suggestion the matcher returns
    has the cutoff 0, and a branch whose cutoff for the category is 0 adds
    nothing to the suggestions. *)
Theorem matcher_skips_zero_cutoff
    (tnea_colleges : list College) (marks : number) (category : string) :
  number_ge marks (Num 0) = true →
  Forall (fun sug => ∀ q, cutoff sug = Num q → ¬ (q == 0)%Q)
         (findCollegesByMarks tnea_colleges marks category)
  ∧ ∀ college acc branch q,
      cutoffs_2024 branch !! category = Some (VNumber (Num q)) → (q == 0)%Q →
      visitBranch marks category college acc branch = acc.
Proof.
  intros _. split.
  - apply Forall_forall.
    intros sug Hs%list_elem_of_In%In_findCollegesByMarks%In_collect.
    destruct Hs as (college & branch & q & _ & _ & _ & Hnz & _ & ->).
    simpl. intros q' [= <-]. exact Hnz.
  - intros college acc branch q Hget Hz. unfold visitBranch, getProp.
    rewrite Hget. simpl. apply Qeq_bool_iff in Hz. rewrite Hz. reflexivity.
Qed.

Lemma matcher_suggests_reached_cutoff_witness :
  In {| sg_college_name := "Anna University"; sg_branch_name := "CSE";
        cutoff := Num 180; sg_address := "Chennai" |}
     (sortedSuggestions sampleCatalog (Num 185) "BC").
Proof.
  apply (matcher_suggests_reached_cutoff sampleCatalog (Num 185) "BC"
           annaUniversity cseBranch 180%Q).
  - simpl. auto.
  - simpl. auto.
  - vm_compute. reflexivity.
  - intros H. vm_compute in H. discriminate.
  - reflexivity.
Defined.

(** C1 as stated fails: the catalog keeps the invariant of the
    specification, the branch Civil of Open College has the cutoff 0 for
    OC, the score 50 reaches it, and the matcher suggests nothing. *)
Lemma matcher_suggests_reached_cutoff_counterexample :
  catalogInvariant sampleCatalog ∧
  ¬ (∀ (marks : number) (category : string) (college : College)
       (branch : Branch) (c : number),
       In college sampleCatalog → In branch (branches college) →
       cutoffs_2024 branch !! category = Some (VNumber c) →
       number_ge marks c = true →
       In {| sg_college_name := college_name college;
             sg_branch_name := branch_name branch;
             cutoff := c;
             sg_address := address college |}
          (sortedSuggestions sampleCatalog marks category)).
Proof.
  split.
  - unfold catalogInvariant, sampleCatalog.
    repeat first [apply Forall_nil_2 | apply Forall_cons_2]; simpl;
      repeat first [apply Forall_nil_2 | apply Forall_cons_2];
      (apply map_Forall_insert_2; [|apply map_Forall_singleton]);
      (split; [simpl; auto 10|reflexivity]).
  - intros H.
    specialize (H (Num 50) "OC" openCollege civilBranch (Num 0)).
    assert (sortedSuggestions sampleCatalog (Num 50) "OC" = []) as E
      by (vm_compute; reflexivity).
    rewrite E in H. apply H.
    + simpl. auto.
    + simpl. auto.
    + vm_compute. reflexivity.
    + reflexivity.
Qed.

Lemma matcher_deterministic_witness :
  ∃ found,
    Imperative.arrays
      (snd (Imperative.findCollegesByMarks (Num 185) "BC"
              (Imperative.initialHeap sampleCatalog)))
      !! fst (Imperative.findCollegesByMarks (Num 185) "BC"
                (Imperative.initialHeap sampleCatalog)) = Some found
    ∧ Imperative.arrays
        (snd (Imperative.findCollegesByMarks (Num 185) "BC"
                (snd (Imperative.findCollegesByMarks (Num 185) "BC"
                        (Imperative.initialHeap sampleCatalog)))))
        !! fst (Imperative.findCollegesByMarks (Num 185) "BC"
                  (snd (Imperative.findCollegesByMarks (Num 185) "BC"
                          (Imperative.initialHeap sampleCatalog)))) = Some found
    ∧ found = findCollegesByMarks sampleCatalog (Num 185) "BC"
    ∧ Imperative.collegesData
        (snd (Imperative.findCollegesByMarks (Num 185) "BC"
                (Imperative.initialHeap sampleCatalog))) = sampleCatalog
    ∧ ∀ l a,
        Imperative.arrays (Imperative.initialHeap sampleCatalog) !! l = Some a →
        Imperative.arrays
          (snd (Imperative.findCollegesByMarks (Num 185) "BC"
                  (Imperative.initialHeap sampleCatalog))) !! l = Some a
        ∧ l ≠ fst (Imperative.findCollegesByMarks (Num 185) "BC"
                     (Imperative.initialHeap sampleCatalog)).
Proof.
  apply (matcher_deterministic
           (Imperative.initialHeap sampleCatalog)
           (snd (Imperative.findCollegesByMarks (Num 185) "BC"
                   (Imperative.initialHeap sampleCatalog)))
           (Num 185) "BC").
  reflexivity.
Defined.

Lemma matcher_skips_zero_cutoff_witness :
  visitBranch (Num 50) "OC" openCollege [] civilBranch = [].
Proof.
  apply (proj2 (matcher_skips_zero_cutoff sampleCatalog (Num 50) "OC" eq_refl)
           openCollege [] civilBranch 0%Q).
  - vm_compute. reflexivity.
  - reflexivity.
Defined.

(** * Properties of the text operations *)

Lemma append_cons (c : ascii) (a b : string) : String c a ++ b = String c (a ++ b).
Proof. reflexivity. Qed.

Lemma append_nil_l (s : string) : "" ++ s = s.
Proof. reflexivity. Qed.

Lemma append_nil_r (s : string) : s ++ "" = s.
Proof.
  induction s as [|c s IH]; [reflexivity|]. rewrite append_cons, IH. reflexivity.
Qed.

Lemma append_assoc (a b c : string) : (a ++ b) ++ c = a ++ (b ++ c).
Proof.
  induction a as [|x a IH]; [reflexivity|]. rewrite !append_cons, IH. reflexivity.
Qed.

Lemma length_append (a b : string) :
  String.length (a ++ b) = (String.length a + String.length b)%nat.
Proof.
  induction a as [|x a IH]; [reflexivity|]. rewrite append_cons. simpl.
  rewrite IH. reflexivity.
Qed.

Lemma prefix_spec (t s : string) :
  String.prefix t s = true ↔ ∃ post, s = t ++ post.
Proof.
  revert s. induction t as [|c t IH]; intros s.
  - destruct s; simpl; split; eauto.
  - destruct s as [|d s]; simpl.
    + split; [discriminate|]. intros [post H]. discriminate.
    + destruct (ascii_dec c d) as [->|Hne].
      * rewrite IH. split; intros [post H]; exists post.
        -- rewrite H. reflexivity.
        -- rewrite append_cons in H. congruence.
      * split; [discriminate|]. intros [post H].
        rewrite append_cons in H. congruence.
Qed.

(** [includes] is the substring relation. *)
Lemma includes_spec (s t : string) :
  includes s t = true ↔ ∃ pre post, s = pre ++ t ++ post.
Proof.
  induction s as [|c s IH].
  - cbn [includes]. rewrite orb_false_r, prefix_spec. split.
    + intros [post H]. exists "", post. exact H.
    + intros (pre & post & H). destruct pre as [|x pre]; [|discriminate].
      exists post. exact H.
  - cbn [includes]. rewrite orb_true_iff, prefix_spec, IH. split.
    + intros [[post H]|(pre & post & H)].
      * exists "", post. exact H.
      * exists (String c pre), post. rewrite H. reflexivity.
    + intros (pre & post & H). destruct pre as [|x pre].
      * left. exists post. exact H.
      * right. rewrite append_cons in H. injection H as _ H. eauto.
Qed.

(** * Properties of the pattern matcher *)

Lemma In_andThen ms k w st' :
  In (w, st') (andThen ms k) ↔
  ∃ w1 st1 w2, In (w1, st1) ms ∧ In (w2, st') (k st1) ∧ w = w1 ++ w2.
Proof.
  unfold andThen. rewrite in_flat_map. split.
  - intros ([w1 st1] & H1 & H2). apply in_map_iff in H2 as ([w2 st2] & E & H2).
    injection E as <- <-. eauto 10.
  - intros (w1 & st1 & w2 & H1 & H2 & ->). exists (w1, st1). split; [exact H1|].
    apply in_map_iff. exists (w2, st'). auto.
Qed.

Lemma In_boundary ic st w st' :
  In (w, st') (rmatch ic WordBoundary st) ↔
  w = "" ∧ st' = st ∧
  xorb (isWordAt (prev st)) (isWordAt (headChar (rest st))) = true.
Proof.
  simpl. destruct (xorb _ _); simpl.
  - split; [intros [[= <- <-]|[]]; auto|]. intros (-> & -> & _). auto.
  - split; [intros []|]. intros (_ & _ & H). discriminate.
Qed.

Lemma In_group ic a st w st' :
  In (w, st') (rmatch ic (Group a) st) ↔
  ∃ st1, In (w, st1) (rmatch ic a st) ∧
         st' = {| prev := prev st1; rest := rest st1; cap1 := Some w |}.
Proof.
  simpl. rewrite in_map_iff. split.
  - intros ([w1 st1] & [= <- <-] & H). eauto.
  - intros (st1 & H & ->). exists (w, st1). auto.
Qed.

Lemma In_framed re a st w st' :
  framed re a →
  In (w, st') (rmatch (ignoreCase re) (pattern re) st) ↔
  xorb (isWordAt (prev st)) (isWordAt (headChar (rest st))) = true ∧
  xorb (isWordAt (prev st')) (isWordAt (headChar (rest st'))) = true ∧
  cap1 st' = Some w ∧
  ∃ st1, In (w, st1) (rmatch (ignoreCase re) a st) ∧
         prev st' = prev st1 ∧ rest st' = rest st1.
Proof.
  intros ->. cbn [rmatch]. rewrite In_andThen. split.
  - intros (w1 & st1 & w2 & H1 & H2 & ->).
    apply (In_boundary (ignoreCase re)) in H1 as (-> & -> & Hb1).
    apply In_andThen in H2 as (w3 & st3 & w4 & H3 & H4 & ->).
    apply (In_boundary (ignoreCase re)) in H4 as (-> & -> & Hb2).
    apply In_group in H3 as (st4 & H3 & ->).
    rewrite append_nil_l, append_nil_r. simpl in *. eauto 10.
  - intros (Hb1 & Hb2 & Hc & st1 & H & Hp & Hr).
    exists "", st, w.
    split; [apply (proj2 (In_boundary (ignoreCase re) _ _ _)); auto|]. split; [|reflexivity].
    apply In_andThen. exists w, st', "".
    split; [|split; [apply (proj2 (In_boundary (ignoreCase re) _ _ _)); auto
                    |rewrite append_nil_r; reflexivity]].
    apply In_group. exists st1. split; [exact H|].
    destruct st' as [p r c]. simpl in *. congruence.
Qed.

Lemma search_group1 re a i before s r :
  framed re a → search re i before s = Some r → group1 r = Some (whole r).
Proof.
  intros Hf. revert i before. induction s as [|c s IH]; intros i before; simpl.
  - destruct (rmatch _ _ _) as [|[w st] l] eqn:E; [discriminate|].
    intros [= <-]. simpl. eapply (In_framed re a); [exact Hf|].
    rewrite E. left. reflexivity.
  - destruct (rmatch _ _ _) as [|[w st] l] eqn:E; [apply IH|].
    intros [= <-]. simpl. eapply (In_framed re a); [exact Hf|].
    rewrite E. left. reflexivity.
Qed.

Lemma marksRegExp_framed :
  framed marksRegExp
    (Seq (Repeat 1 (Some 3) Digit)
         (Repeat 0 (Some 1) (Seq (Char ".") (Repeat 1 None Digit)))).
Proof. reflexivity. Qed.

Lemma categoryRegExp_framed :
  framed categoryRegExp
    (Alt (lit "oc") (Alt (lit "bc") (Alt (lit "bcm")
    (Alt (lit "mbc") (Alt (lit "sc") (Alt (lit "sca") (lit "st"))))))).
Proof. reflexivity. Qed.

(** * Properties of the classifier *)

Section ClassifierFacts.

Context (tnea_colleges : list College).

(** The run of the classifier, rule by rule. *)
Lemma run_generateAIResponse (userInput : string) :
  run (generateAIResponse tnea_colleges userInput) =
  let input := toLowerCase userInput in
  if isGreeting input then (Return greetingReply, [])
  else if isWellBeing input then (Return wellBeingReply, [])
  else
    match stringMatch input marksRegExp, stringMatch input categoryRegExp with
    | Some m, Some c =>
        let marks := parseFloatOf (group1 m) in
        let category := toUpperCase (whole c) in
        (Return (matcherReply marks category
                   (findCollegesByMarks tnea_colleges marks category)),
         [(marks, category)])
    | _, _ =>
        if isCollegeQuery input then (Return askDetailsReply, [])
        else (Return defaultReply, [])
    end.
Proof.
  unfold generateAIResponse, isGreeting, isWellBeing, isCollegeQuery. cbv zeta.
  destruct (_ || _ || _); [reflexivity|].
  destruct (_ || _); [reflexivity|].
  destruct (stringMatch _ marksRegExp) as [m|] eqn:Em;
    destruct (stringMatch _ categoryRegExp) as [c|] eqn:Ec; simpl;
    try (destruct (_ || _ || _); reflexivity).
  apply (search_group1 _ _ _ _ _ _ categoryRegExp_framed) in Ec.
  unfold run, bind, at1, ret, toUpperCaseOf, callMatcher, matcherReply.
  rewrite Ec. simpl. destruct (0 <? _)%nat; reflexivity.
Qed.

End ClassifierFacts.

Lemma isGreeting_spec (input : string) :
  isGreeting input = true ↔
  ∃ g, In g greetingTokens ∧ ∃ pre post, input = pre ++ g ++ post.
Proof.
  unfold isGreeting, greetingTokens. rewrite !orb_true_iff, !includes_spec.
  simpl. split.
  - intros [[H|H]|H]; eauto 10.
  - intros (g & [<-|[<-|[<-|[]]]] & H); auto.
Qed.

Lemma matcherReply_not_greeting marks category found :
  matcherReply marks category found ≠ greetingReply.
Proof. unfold matcherReply. destruct (0 <? _)%nat; discriminate. Qed.

(** * The claims about the classifier *)

(** C2, as amended: the classifier returns the fixed greeting reply, with
    no suggestions, exactly when the lower-cased text contains hi, hello or
    hey as a substring, whether or not it stands there as a word of its
    own; a text without such a substring never takes rule 1. *)
Theorem greeting_iff_substring (tnea_colleges : list College) (userInput : string) :
  fst (run (generateAIResponse tnea_colleges userInput)) =
    Return {| content := [Lit greetingText]; suggestions := None |}
  ↔ ∃ g, In g greetingTokens ∧
         ∃ pre post, toLowerCase userInput = pre ++ g ++ post.
Proof.
  rewrite <- isGreeting_spec, run_generateAIResponse. cbv zeta.
  destruct (isGreeting _); [tauto|].
  split; [|discriminate]. intros H. exfalso.
  destruct (isWellBeing _); [discriminate|].
  destruct (stringMatch _ marksRegExp);
    [destruct (stringMatch _ categoryRegExp)|];
    try (destruct (isCollegeQuery _); discriminate).
  simpl in H. injection H as H. eapply matcherReply_not_greeting, H.
Qed.

(** C2 as stated fails: the text below holds hi only inside the word
    Which, so it contains none of the greeting tokens as a token, and the
    classifier answers it with the greeting all the same. *)
Lemma greeting_iff_substring_counterexample :
  fst (run (generateAIResponse sampleCatalog "Which colleges for 185 in BC")) =
    Return {| content := [Lit greetingText]; suggestions := None |}
  ∧ ¬ ∃ g i, In g greetingTokens
             ∧ occurs (toLowerCase "Which colleges for 185 in BC") i g.
Proof.
  split; [vm_compute; reflexivity|].
  intros (g & i & Hg & pre & post & E & _ & Hl & Hr).
  simpl in Hg.
  destruct Hg as [<-|[<-|[<-|[]]]];
    repeat (destruct pre as [|? pre]; vm_compute in E;
            [first [discriminate E
                   |injection E as E; subst; vm_compute in Hl, Hr; discriminate]
            |first [discriminate E|injection E as Ea E; subst]]).
Qed.

Lemma qualifies_intro marks category branch q :
  getProp (cutoffs_2024 branch) category = VNumber (Num q) →
  ¬ (q == 0)%Q → number_ge marks (Num q) = true →
  qualifies marks category branch = true.
Proof.
  intros Hget Hnz Hge. unfold qualifies. rewrite Hget, Hge, andb_true_r. simpl.
  destruct (Qeq_bool q 0) eqn:E; [|reflexivity].
  apply Qeq_bool_iff in E. contradiction.
Qed.

Lemma noneQualify_collect tnea_colleges marks category :
  noneQualify tnea_colleges marks category →
  collect tnea_colleges marks category = [].
Proof.
  intros Hn. destruct (collect _ _ _) as [|sug l] eqn:E; [reflexivity|].
  assert (In sug (collect tnea_colleges marks category)) as Hin
    by (rewrite E; left; reflexivity).
  apply In_collect in Hin
    as (college & branch & q & Hc & Hb & Hget & Hnz & Hge & _).
  specialize (Hn college branch Hc Hb).
  rewrite (qualifies_intro _ _ _ _ Hget Hnz Hge) in Hn. discriminate.
Qed.

(** C5: a text that contains a greeting (as a substring, and so in
    particular as a token) and also a score and a category is answered
    with the greeting: rule 1 comes before rule 3, the matcher is not
    called and no suggestions are attached. *)
Theorem greeting_precedes_matching
    (tnea_colleges : list College) (userInput : string) :
  (∃ g, In g greetingTokens ∧
        ∃ pre post, toLowerCase userInput = pre ++ g ++ post) →
  (∃ i w, occurs userInput i w ∧ isScoreText w) →
  (∃ j c, occurs userInput j c ∧ isCategoryText c) →
  run (generateAIResponse tnea_colleges userInput) =
  (Return {| content := [Lit greetingText]; suggestions := None |}, []).
Proof.
  intros Hg%isGreeting_spec _ _. rewrite run_generateAIResponse. cbv zeta.
  rewrite Hg. reflexivity.
Qed.

Lemma greeting_precedes_matching_witness :
  run (generateAIResponse sampleCatalog "hello, I scored 185 in BC") =
  (Return {| content := [Lit greetingText]; suggestions := None |}, []).
Proof.
  apply greeting_precedes_matching.
  - exists "hello". split; [simpl; auto|].
    exists "", ", i scored 185 in bc". reflexivity.
  - exists 16%nat, "185". split.
    + exists "hello, I scored ", " in BC". repeat split; reflexivity.
    + exists "185", "". repeat split; simpl; auto.
  - exists 23%nat, "BC". split.
    + exists "hello, I scored 185 in ", "". repeat split; reflexivity.
    + unfold isCategoryText. simpl. auto.
Defined.

(** C6: the classifier is total and raises nothing: for every catalog and
    every text it returns a reply; so it does for the empty text, and for a
    category written in mixed case, which reaches the matcher in upper
    case. *)
Theorem classifier_total (tnea_colleges : list College) :
  (∀ userInput : string,
     ∃ reply log,
       run (generateAIResponse tnea_colleges userInput) = (Return reply, log))
  ∧ run (generateAIResponse tnea_colleges "") = (Return defaultReply, [])
  ∧ run (generateAIResponse tnea_colleges "185 bC") =
    (Return (matcherReply (Num 185) "BC"
               (findCollegesByMarks tnea_colleges (Num 185) "BC")),
     [(Num 185, "BC")]).
Proof.
  split; [|split].
  - intros userInput. rewrite run_generateAIResponse. cbv zeta.
    destruct (isGreeting _); [eauto|].
    destruct (isWellBeing _); [eauto|].
    destruct (stringMatch _ marksRegExp);
      [destruct (stringMatch _ categoryRegExp)|];
      try (destruct (isCollegeQuery _); eauto); eauto.
  - rewrite run_generateAIResponse. reflexivity.
  - rewrite run_generateAIResponse. reflexivity.
Qed.

(** C7: when no branch of the catalog qualifies for a score and a
    category, the matcher returns the empty sequence, and a run of the
    classifier that called the matcher with them returns, without an
    exception, the reply that explains that nothing matched, with no
    suggestions attached. *)
Theorem no_match_fallback
    (tnea_colleges : list College) (marks : number) (category : string) :
  noneQualify tnea_colleges marks category →
  findCollegesByMarks tnea_colleges marks category = []
  ∧ ∀ userInput out log,
      run (generateAIResponse tnea_colleges userInput) = (out, log) →
      In (marks, category) log →
      out = Return {| content := noMatchText marks category;
                      suggestions := None |}.
Proof.
  intros Hn.
  assert (findCollegesByMarks tnea_colleges marks category = []) as Hempty.
  { unfold findCollegesByMarks, sortedSuggestions.
    rewrite noneQualify_collect by exact Hn. reflexivity. }
  split; [exact Hempty|].
  intros userInput out log Hrun Hlog.
  rewrite run_generateAIResponse in Hrun. cbv zeta in Hrun.
  destruct (isGreeting _); [injection Hrun as <- <-; destruct Hlog|].
  destruct (isWellBeing _); [injection Hrun as <- <-; destruct Hlog|].
  destruct (stringMatch _ marksRegExp);
    [destruct (stringMatch _ categoryRegExp)|];
    try (destruct (isCollegeQuery _); injection Hrun as <- <-; destruct Hlog).
  injection Hrun as <- <-. destruct Hlog as [[= Hm Hc]|[]].
  rewrite Hm, Hc, Hempty. reflexivity.
Qed.

Lemma no_match_fallback_witness :
  findCollegesByMarks sampleCatalog (Num 50) "OC" = []
  ∧ fst (run (generateAIResponse sampleCatalog
                "My cutoff is 50 and I'm in OC category")) =
    Return {| content := noMatchText (Num 50) "OC"; suggestions := None |}.
Proof.
  assert (noneQualify sampleCatalog (Num 50) "OC") as Hn.
  { intros college branch [<-|[<-|[]]]; simpl;
      intros Hb; repeat (destruct Hb as [<-|Hb]; [vm_compute; reflexivity|]);
      destruct Hb. }
  split.
  - apply (no_match_fallback sampleCatalog (Num 50) "OC" Hn).
  - apply (proj2 (no_match_fallback sampleCatalog (Num 50) "OC" Hn)
             "My cutoff is 50 and I'm in OC category" _ [(Num 50, "OC")]).
    + vm_compute. reflexivity.
    + left. reflexivity.
Defined.

(** * The pattern matcher at work *)

Lemma isDigit_isWordChar c : isDigit c = true → isWordChar c = true.
Proof. intros H. unfold isWordChar. rewrite H. rewrite orb_true_r. reflexivity. Qed.

Lemma isWordChar_upperChar c : isWordChar (upperChar c) = isWordChar c.
Proof. destruct c as [[] [] [] [] [] [] [] []]; reflexivity. Qed.

Lemma lastOr_append p a b : lastOr p (a ++ b) = lastOr (lastOr p a) b.
Proof.
  revert p. induction a as [|c a IH]; intros p; [reflexivity|].
  rewrite append_cons. simpl. apply IH.
Qed.

Lemma lastChar_lastOr s : lastChar s = lastOr None s.
Proof.
  destruct s as [|c s]; [reflexivity|]. simpl.
  revert c. induction s as [|d s IH]; intros c; [reflexivity|]. apply IH.
Qed.

Lemma advance_nil st : advance st "" (rest st) = st.
Proof. destruct st. reflexivity. Qed.

Lemma advance_nil_eq st r : rest st = r → advance st "" r = st.
Proof. intros <-. apply advance_nil. Qed.

(** ** Digit runs *)

Lemma takeDigits_cons c s :
  takeDigits (String c s) =
  if isDigit c then (String c (fst (takeDigits s)), snd (takeDigits s))
  else ("", String c s).
Proof. simpl. destruct (isDigit c), (takeDigits s); reflexivity. Qed.

Lemma takeDigits_spec s :
  s = fst (takeDigits s) ++ snd (takeDigits s) ∧
  allChars isDigit (fst (takeDigits s)) = true ∧
  match headChar (snd (takeDigits s)) with
  | Some c => isDigit c = false
  | None => True
  end.
Proof.
  induction s as [|c s (IH1 & IH2 & IH3)]; [simpl; auto|].
  rewrite takeDigits_cons. destruct (isDigit c) eqn:E; simpl.
  - rewrite E, IH2. rewrite append_cons, <- IH1. auto.
  - rewrite E. auto.
Qed.

Lemma takeDigits_append d r :
  allChars isDigit d = true →
  match headChar r with Some c => isDigit c = false | None => True end →
  takeDigits (d ++ r) = (d, r).
Proof.
  intros Hd Hr. induction d as [|c d IH].
  - rewrite append_nil_l. destruct r as [|c r]; [reflexivity|].
    rewrite takeDigits_cons. simpl in Hr. rewrite Hr. reflexivity.
  - simpl in Hd. apply andb_prop in Hd as [Hc Hd].
    rewrite append_cons, takeDigits_cons, Hc, IH by exact Hd. reflexivity.
Qed.

(** ** Equations of the matcher *)

Lemma rmatch_Seq ic a b st :
  rmatch ic (Seq a b) st = andThen (rmatch ic a st) (rmatch ic b).
Proof. reflexivity. Qed.

Lemma rmatch_Group ic a st :
  rmatch ic (Group a) st = map capture (rmatch ic a st).
Proof.
  simpl. apply map_ext. intros [w st']. reflexivity.
Qed.

Lemma rmatch_Char ic c st :
  rmatch ic (Char c) st = consume st (fun ch => charMatches ic ch c).
Proof. reflexivity. Qed.

Lemma rmatch_Repeat_bounded ic min k a st :
  rmatch ic (Repeat min (Some k) a) st = repeatGreedy (rmatch ic a) k min st.
Proof. reflexivity. Qed.

Lemma rmatch_WordBoundary ic st :
  rmatch ic WordBoundary st = if atBoundary st then [("", st)] else [].
Proof. reflexivity. Qed.

Lemma andThen_flat_map ms k :
  andThen ms k = flat_map (fun m => map (extend (fst m)) (k (snd m))) ms.
Proof.
  unfold andThen. apply flat_map_ext. intros [w1 st1]. simpl.
  apply map_ext. intros [w2 st2]. reflexivity.
Qed.

Lemma andThen_nil k : andThen [] k = [].
Proof. reflexivity. Qed.

Lemma andThen_cons m ms k :
  andThen (m :: ms) k = (map (extend (fst m)) (k (snd m)) ++ andThen ms k)%list.
Proof. rewrite !andThen_flat_map. reflexivity. Qed.

Lemma andThen_app ms1 ms2 k :
  andThen (ms1 ++ ms2)%list k = (andThen ms1 k ++ andThen ms2 k)%list.
Proof. rewrite !andThen_flat_map. apply flat_map_app. Qed.

Lemma extend_nil m : extend "" m = m.
Proof. destruct m. reflexivity. Qed.

Lemma map_extend_nil ms : map (extend "") ms = ms.
Proof.
  induction ms as [|m ms IH]; [reflexivity|]. simpl. rewrite extend_nil, IH.
  reflexivity.
Qed.

Lemma extend_extend a b m : extend a (extend b m) = extend (a ++ b) m.
Proof. destruct m. unfold extend. simpl. rewrite append_assoc. reflexivity. Qed.

Lemma map_extend_extend a b ms :
  map (extend a) (map (extend b) ms) = map (extend (a ++ b)) ms.
Proof. rewrite map_map. apply map_ext. intros m. apply extend_extend. Qed.

Lemma andThen_map_extend w ms k :
  andThen (map (extend w) ms) k = map (extend w) (andThen ms k).
Proof.
  induction ms as [|m ms IH]; [reflexivity|].
  simpl map at 1. rewrite !andThen_cons, map_app, IH. f_equal.
  destruct m as [w1 st1]. simpl. rewrite map_extend_extend. reflexivity.
Qed.

(** ** Matches that end at a word boundary *)

Lemma keep_app ms1 ms2 : keep (ms1 ++ ms2)%list = (keep ms1 ++ keep ms2)%list.
Proof. unfold keep. apply List.filter_app. Qed.

Lemma keep_map f ms :
  (∀ m, atBoundary (snd (f m)) = atBoundary (snd m)) →
  keep (map f ms) = map f (keep ms).
Proof.
  intros Hf. induction ms as [|m ms IH]; [reflexivity|]. simpl.
  rewrite Hf. destruct (atBoundary (snd m)); simpl; rewrite IH; reflexivity.
Qed.

Lemma keep_map_extend w ms : keep (map (extend w) ms) = map (extend w) (keep ms).
Proof. apply keep_map. intros [w2 st2]. reflexivity. Qed.

Lemma keep_map_capture ms : keep (map capture ms) = map capture (keep ms).
Proof. apply keep_map. intros [w2 st2]. reflexivity. Qed.

Lemma andThen_boundary ic ms : andThen ms (rmatch ic WordBoundary) = keep ms.
Proof.
  induction ms as [|[w st] ms IH]; [reflexivity|].
  rewrite andThen_cons, IH, rmatch_WordBoundary. simpl.
  destruct (atBoundary st); simpl; [|reflexivity].
  unfold extend. simpl. rewrite append_nil_r. reflexivity.
Qed.

Lemma keep_andThen ms k : keep (andThen ms k) = andThen ms (fun st => keep (k st)).
Proof.
  induction ms as [|m ms IH]; [reflexivity|].
  rewrite !andThen_cons, keep_app, keep_map_extend, IH. reflexivity.
Qed.

(** ** Greedy runs of digits *)

Lemma repeatGreedy_digit_S n min st :
  repeatGreedy (rmatch false Digit) (S n) min st =
  (match rest st with
   | String c s' =>
       if isDigit c
       then map (extend (String c ""))
                (repeatGreedy (rmatch false Digit) n (pred min)
                   {| prev := Some c; rest := s'; cap1 := cap1 st |})
       else []
   | "" => []
   end ++ match min with O => [("", st)] | S _ => [] end)%list.
Proof.
  cbn [repeatGreedy rmatch]. unfold consume.
  destruct (rest st) as [|c s']; [reflexivity|].
  destruct (isDigit c); [|reflexivity]. cbn [flat_map]. rewrite app_nil_r.
  f_equal. cbn [String.eqb negb orb]. apply map_ext. intros [w2 st2]. reflexivity.
Qed.

Lemma takeDigits_nonempty s :
  fst (takeDigits s) ≠ "" → ∃ c s', s = String c s' ∧ isDigit c = true.
Proof.
  destruct s as [|c s']; [intros H; contradiction H; reflexivity|].
  rewrite takeDigits_cons. destruct (isDigit c) eqn:E; [eauto|].
  intros H. contradiction H. reflexivity.
Qed.

Section DigitsThen.

(** What follows the run refuses to start before a digit that comes after
    a word character. *)
Context (K : mstate → list (string * mstate)).
Hypothesis K_digit :
  ∀ st c s, isWordAt (prev st) = true → rest st = String c s →
            isDigit c = true → K st = [].

Lemma stop_then min st :
  (min = 0%nat → isWordAt (prev st) = true) →
  andThen (match min with O => [("", st)] | S _ => [] end) K =
  if (min <=? 0)%nat && (String.length (fst (takeDigits (rest st))) <=? 0)%nat
  then K st else [].
Proof.
  intros Hp. destruct min as [|m]; [|reflexivity].
  rewrite andThen_cons, andThen_nil, app_nil_r, map_extend_nil. simpl.
  destruct (fst (takeDigits (rest st))) eqn:E; [reflexivity|]. simpl.
  destruct (takeDigits_nonempty (rest st)) as (c & s' & Hr & Hc).
  { rewrite E. discriminate. }
  apply (K_digit st c s'); auto.
Qed.

Lemma repeat_digits_then n : ∀ min st,
  (min = 0%nat → isWordAt (prev st) = true) →
  andThen (repeatGreedy (rmatch false Digit) n min st) K =
  if (min <=? String.length (fst (takeDigits (rest st))))%nat
     && (String.length (fst (takeDigits (rest st))) <=? n)%nat
  then map (extend (fst (takeDigits (rest st))))
           (K (advance st (fst (takeDigits (rest st)))
                 (snd (takeDigits (rest st)))))
  else [].
Proof.
  induction n as [|n IH]; intros min st Hp.
  - cbn [repeatGreedy]. rewrite stop_then by exact Hp.
    destruct (fst (takeDigits (rest st))) as [|c d] eqn:E.
    + destruct (takeDigits_spec (rest st)) as (Hs & _ & _).
      rewrite E, append_nil_l in Hs. rewrite <- Hs, advance_nil, map_extend_nil.
      destruct min; reflexivity.
    + simpl. rewrite !andb_false_r. reflexivity.
  - rewrite repeatGreedy_digit_S, andThen_app, stop_then by exact Hp.
    destruct (rest st) as [|c s'] eqn:Er.
    + rewrite andThen_nil. simpl. destruct min; simpl; [|reflexivity].
      rewrite map_extend_nil, (advance_nil_eq st "" Er). reflexivity.
    + rewrite takeDigits_cons. destruct (isDigit c) eqn:Ec.
      * cbn [fst snd String.length]. rewrite andb_false_r, app_nil_r.
        rewrite andThen_map_extend, IH.
        2:{ intros _. simpl. apply isDigit_isWordChar, Ec. }
        cbn [rest].
        replace (pred min <=? String.length (fst (takeDigits s')))%nat
          with (min <=? S (String.length (fst (takeDigits s'))))%nat
          by (destruct min; reflexivity).
        cbn [Nat.leb].
        destruct (_ && _); [|reflexivity].
        rewrite map_extend_extend. reflexivity.
      * rewrite andThen_nil. cbn [fst snd String.length app].
        destruct min; simpl; [|reflexivity].
        rewrite map_extend_nil, (advance_nil_eq st _ Er). reflexivity.
Qed.

End DigitsThen.

(** ** The pattern of the marks *)

Lemma lastOr_digits p d :
  allChars isDigit d = true → d ≠ "" → isWordAt (lastOr p d) = true.
Proof.
  revert p. induction d as [|c d IH]; intros p Hd Hne; [contradiction Hne; reflexivity|].
  simpl in Hd. apply andb_prop in Hd as [Hc Hd]. simpl.
  destruct d as [|c' d]; [simpl; apply isDigit_isWordChar, Hc|].
  apply IH; [exact Hd|discriminate].
Qed.

Lemma takeDigits_length s :
  (String.length (fst (takeDigits s)) <= String.length s)%nat.
Proof.
  destruct (takeDigits_spec s) as (Hs & _ & _).
  rewrite Hs at 2. rewrite length_append. lia.
Qed.

Lemma length_nonempty (s : string) : (1 <=? String.length s)%nat = true → s ≠ "".
Proof. destruct s; [discriminate|discriminate]. Qed.

Lemma boundary_after_word ic st c s :
  isWordAt (prev st) = true → rest st = String c s → isDigit c = true →
  rmatch ic WordBoundary st = [].
Proof.
  intros Hp Hr Hc. rewrite rmatch_WordBoundary. unfold atBoundary.
  rewrite Hp, Hr. simpl. rewrite (isDigit_isWordChar c Hc). reflexivity.
Qed.

(** [\d+] up to a word boundary: the whole run of digits, or nothing. *)
Lemma keep_digitsPlus st :
  keep (rmatch false (Repeat 1 None Digit) st) =
  if (1 <=? String.length (fst (takeDigits (rest st))))%nat
     && negb (isWordAt (headChar (snd (takeDigits (rest st)))))
  then [(fst (takeDigits (rest st)),
         advance st (fst (takeDigits (rest st))) (snd (takeDigits (rest st))))]
  else [].
Proof.
  rewrite <- (andThen_boundary false). cbn [rmatch].
  rewrite (repeat_digits_then _ (boundary_after_word false)) by discriminate.
  destruct (takeDigits_spec (rest st)) as (_ & Hd & _).
  pose proof (takeDigits_length (rest st)) as Hlen.
  destruct (1 <=? _)%nat eqn:E1; [|reflexivity].
  assert ((String.length (fst (takeDigits (rest st)))
           <=? 1 + String.length (rest st))%nat = true) as ->
    by (apply Nat.leb_le; lia).
  rewrite rmatch_WordBoundary. unfold atBoundary. cbn [advance prev rest andb].
  rewrite (lastOr_digits _ _ Hd (length_nonempty _ E1)). cbn [xorb].
  destruct (isWordAt (headChar _)); [reflexivity|]. cbn [negb map].
  unfold extend. cbn [fst snd]. rewrite append_nil_r. reflexivity.
Qed.

(** [a?] when [a] never matches the empty text. *)
Lemma repeatGreedy_optional step st :
  (∀ w st', In (w, st') (step st) → w ≠ "") →
  repeatGreedy step 1 0 st = (step st ++ [("", st)])%list.
Proof.
  intros Hne. cbn [repeatGreedy]. f_equal.
  induction (step st) as [|[w1 st1] l IH]; [reflexivity|].
  cbn [flat_map]. rewrite IH by (intros w st' H; apply (Hne w st'); right; exact H).
  assert (w1 ≠ "") as Hw by (apply (Hne w1 st1); left; reflexivity).
  destruct w1 as [|c w1]; [contradiction Hw; reflexivity|].
  cbn [String.eqb negb orb Init.Nat.pred map app]. rewrite append_nil_r.
  reflexivity.
Qed.

Lemma consume_then st p k :
  andThen (consume st p) k =
  match rest st with
  | String c s' =>
      if p c
      then map (extend (String c ""))
               (k {| prev := Some c; rest := s'; cap1 := cap1 st |})
      else []
  | "" => []
  end.
Proof.
  unfold consume. destruct (rest st) as [|c s']; [reflexivity|].
  destruct (p c); [|reflexivity].
  rewrite andThen_cons, andThen_nil, app_nil_r. reflexivity.
Qed.

Lemma fraction_nonempty st w st' :
  In (w, st') (rmatch false (Seq (Char ".") (Repeat 1 None Digit)) st) → w ≠ "".
Proof.
  rewrite rmatch_Seq. intros (w1 & st1 & w2 & H1 & _ & ->)%In_andThen.
  cbn [rmatch] in H1. unfold consume in H1.
  destruct (rest st); [destruct H1|]. destruct (charMatches _ _ _); [|destruct H1].
  destruct H1 as [[= <- _]|[]]. discriminate.
Qed.

Lemma keep_fraction st :
  keep (rmatch false (Seq (Char ".") (Repeat 1 None Digit)) st) =
  match rest st with
  | String c s2 =>
      if Ascii.eqb c "."
         && (1 <=? String.length (fst (takeDigits s2)))%nat
         && negb (isWordAt (headChar (snd (takeDigits s2))))
      then [(String c (fst (takeDigits s2)),
             {| prev := lastOr (Some c) (fst (takeDigits s2));
                rest := snd (takeDigits s2);
                cap1 := cap1 st |})]
      else []
  | "" => []
  end.
Proof.
  rewrite rmatch_Seq, keep_andThen, rmatch_Char, consume_then.
  destruct (rest st) as [|c s2]; [reflexivity|].
  unfold charMatches. destruct (Ascii.eqb c "."); [|reflexivity].
  rewrite keep_digitsPlus. cbn [rest andb].
  destruct (_ && _); reflexivity.
Qed.

Lemma keep_optional_fraction st :
  isWordAt (prev st) = true →
  keep (rmatch false
          (Repeat 0 (Some 1) (Seq (Char ".") (Repeat 1 None Digit))) st) =
  scoreTail st.
Proof.
  intros Hp. rewrite rmatch_Repeat_bounded.
  rewrite repeatGreedy_optional by apply fraction_nonempty.
  rewrite keep_app, keep_fraction. unfold scoreTail. f_equal.
  unfold keep, atBoundary. simpl. rewrite Hp. simpl. reflexivity.
Qed.

Lemma scoreTail_before_digit st c s :
  isWordAt (prev st) = true → rest st = String c s → isDigit c = true →
  keep (rmatch false
          (Repeat 0 (Some 1) (Seq (Char ".") (Repeat 1 None Digit))) st) = [].
Proof.
  intros Hp Hr Hc. rewrite keep_optional_fraction by exact Hp.
  unfold scoreTail. rewrite Hr. cbn [headChar isWordAt].
  rewrite (isDigit_isWordChar c Hc). cbn [negb].
  destruct (Ascii.eqb c ".") eqn:E; [|reflexivity].
  apply Ascii.eqb_eq in E. subst c. discriminate.
Qed.

(** The matches of the pattern of the marks, in closed form. *)
Lemma marks_rmatch p s :
  rmatch false (pattern marksRegExp) {| prev := p; rest := s; cap1 := None |} =
  scoreMatches p s.
Proof.
  unfold marksRegExp, scoreMatches. cbn [pattern].
  rewrite rmatch_Seq, rmatch_WordBoundary.
  set (st0 := {| prev := p; rest := s; cap1 := None |}).
  destruct (takeDigits_spec s) as (_ & Hd & _).
  assert (atBoundary st0 = true →
          rmatch false
            (Seq (Group (Seq (Repeat 1 (Some 3) Digit)
                            (Repeat 0 (Some 1)
                               (Seq (Char ".") (Repeat 1 None Digit)))))
                 WordBoundary) st0 =
          if (1 <=? String.length (fst (takeDigits s)))%nat
             && (String.length (fst (takeDigits s)) <=? 3)%nat
          then map capture
                 (map (extend (fst (takeDigits s)))
                    (scoreTail (advance st0 (fst (takeDigits s))
                                  (snd (takeDigits s)))))
          else []) as Hbody.
  { intros _.
    rewrite rmatch_Seq, andThen_boundary, rmatch_Group, keep_map_capture.
    rewrite rmatch_Seq, keep_andThen, rmatch_Repeat_bounded.
    rewrite (repeat_digits_then _ scoreTail_before_digit) by discriminate.
    cbn [rest st0].
    destruct (1 <=? _)%nat eqn:E1; [|reflexivity].
    destruct (_ <=? 3)%nat; [|reflexivity]. cbn [andb].
    rewrite keep_optional_fraction; [reflexivity|].
    apply lastOr_digits; [exact Hd|apply length_nonempty, E1]. }
  destruct (1 <=? String.length (fst (takeDigits s)))%nat eqn:E1.
  - destruct (takeDigits_nonempty s (length_nonempty _ E1)) as (c & s' & -> & Hc).
    assert (atBoundary st0 = negb (isWordAt p)) as Hb.
    { unfold atBoundary, st0. simpl. rewrite (isDigit_isWordChar c Hc).
      destruct (isWordAt p); reflexivity. }
    rewrite Hb in *. destruct (negb (isWordAt p)); [|reflexivity].
    rewrite andThen_cons, andThen_nil, app_nil_r, map_extend_nil.
    cbn [snd]. rewrite Hbody by reflexivity. reflexivity.
  - rewrite andb_false_r. cbn [andb].
    destruct (atBoundary st0); [|reflexivity].
    rewrite andThen_cons, andThen_nil, app_nil_r, map_extend_nil.
    cbn [snd]. rewrite Hbody by reflexivity. reflexivity.
Qed.

Lemma notWord_notDigit (c : option ascii) :
  isWordAt c = false →
  match c with Some ch => isDigit ch = false | None => True end.
Proof.
  destruct c as [ch|]; [|trivial]. simpl. intros H.
  destruct (isDigit ch) eqn:E; [|reflexivity].
  rewrite (isDigit_isWordChar ch E) in H. discriminate.
Qed.

Lemma In_scoreTail st w st' :
  In (w, st') (scoreTail st) →
  ∃ post, rest st = w ++ post ∧ isWordAt (headChar post) = false ∧
          (w = "" ∨ ∃ d, w = String "."%char d ∧ d ≠ ""
                         ∧ allChars isDigit d = true).
Proof.
  unfold scoreTail. rewrite in_app_iff. intros [H|H].
  - destruct (rest st) as [|c s2]; [destruct H|].
    destruct (Ascii.eqb c ".") eqn:Ec; [|destruct H].
    destruct (1 <=? _)%nat eqn:E1; [|destruct H].
    destruct (isWordAt (headChar _)) eqn:Ew; [destruct H|].
    destruct H as [[= <- <-]|[]]. apply Ascii.eqb_eq in Ec. subst c.
    destruct (takeDigits_spec s2) as (Hs & Hd & _).
    exists (snd (takeDigits s2)). rewrite append_cons, <- Hs.
    split; [reflexivity|]. split; [exact Ew|]. right.
    exists (fst (takeDigits s2)). split; [reflexivity|].
    split; [apply length_nonempty, E1|exact Hd].
  - destruct (isWordAt (headChar (rest st))) eqn:Ew; [destruct H|].
    destruct H as [[= <- <-]|[]]. exists (rest st). auto.
Qed.

Lemma marks_sound : tokenSound marksRegExp isScoreText.
Proof.
  intros p s w st'. cbn [ignoreCase marksRegExp]. rewrite marks_rmatch.
  unfold scoreMatches.
  destruct (isWordAt p); [intros []|].
  destruct (1 <=? _)%nat eqn:E1; [|intros []].
  destruct (_ <=? 3)%nat eqn:E3; [|intros []]. cbn [negb andb].
  rewrite map_map, in_map_iff. intros ([w2 st2] & [= <- _] & Hin).
  apply In_scoreTail in Hin as (post & Hr & Hw & Hfp). cbn [advance rest] in Hr.
  destruct (takeDigits_spec s) as (Hs & Hd & _).
  split; [|split; [reflexivity|]].
  - exists (fst (takeDigits s)), w2. cbn [fst]. split; [reflexivity|].
    split; [exact Hd|]. split.
    + apply Nat.leb_le in E1, E3. lia.
    + destruct Hfp as [->|(d & -> & Hne & Hdd)]; [left; reflexivity|].
      right. exists d. auto.
  - exists post. cbn [fst]. rewrite append_assoc, <- Hr, <- Hs. auto.
Qed.

Lemma marks_complete : tokenComplete marksRegExp isScoreText.
Proof.
  intros p w post (ip & fp & -> & Hip & Hlen & Hfp) Hp Hpost.
  cbn [ignoreCase marksRegExp]. rewrite marks_rmatch. unfold scoreMatches.
  rewrite Hp. cbn [negb andb].
  pose proof (notWord_notDigit _ Hpost) as Hnd.
  destruct Hfp as [->|(d & -> & Hne & Hd)].
  - rewrite append_nil_r, (takeDigits_append ip post Hip Hnd). cbn [fst snd].
    assert ((1 <=? String.length ip)%nat = true) as -> by (apply Nat.leb_le; lia).
    assert ((String.length ip <=? 3)%nat = true) as -> by (apply Nat.leb_le; lia).
    cbn [andb]. unfold scoreTail. cbn [advance rest]. rewrite Hpost. cbn [negb].
    destruct (match post with "" => [] | String _ _ => _ end) as [|[w2 st2] l];
      cbn [app map]; unfold extend, capture; cbn [fst snd].
    + rewrite append_nil_r. eauto.
    + eexists _, _, _. split; [reflexivity|]. rewrite length_append. lia.
  - rewrite append_assoc, append_cons.
    rewrite (takeDigits_append ip _ Hip) by reflexivity. cbn [fst snd].
    assert ((1 <=? String.length ip)%nat = true) as -> by (apply Nat.leb_le; lia).
    assert ((String.length ip <=? 3)%nat = true) as -> by (apply Nat.leb_le; lia).
    cbn [andb]. unfold scoreTail. cbn [advance rest].
    rewrite (takeDigits_append d post Hd Hnd). cbn [fst snd].
    rewrite Hpost. cbn [negb andb Ascii.eqb].
    assert ((1 <=? String.length d)%nat = true) as ->
      by (destruct d; [contradiction Hne; reflexivity|reflexivity]).
    cbn [app map]. unfold extend, capture. cbn beta iota. cbn [fst snd].
    eexists _, _, _. split; [reflexivity|]. cbn beta iota. cbn [fst snd]. lia.
Qed.

(** ** The pattern of the category *)

Lemma toUpperCase_cons c s :
  toUpperCase (String c s) = String (upperChar c) (toUpperCase s).
Proof. reflexivity. Qed.

Lemma In_map_extend w1 ms w st' :
  In (w, st') (map (extend w1) ms) ↔ ∃ w2, w = w1 ++ w2 ∧ In (w2, st') ms.
Proof.
  rewrite in_map_iff. split.
  - intros ([w2 st2] & [= <- <-] & H). eauto.
  - intros (w2 & -> & H). exists (w2, st'). auto.
Qed.

(** A literal, matched without regard to case. *)
Lemma In_lit code : ∀ st w st',
  In (w, st') (rmatch true (lit code) st) ↔
  toUpperCase w = toUpperCase code ∧
  ∃ post, rest st = w ++ post ∧ st' = advance st w post.
Proof.
  induction code as [|c code IH]; intros st w st'.
  - cbn [lit rmatch]. split.
    + intros [[= <- <-]|[]]. split; [reflexivity|].
      exists (rest st). rewrite advance_nil. auto.
    + intros (Hw & post & Hr & ->). destruct w; [|discriminate].
      left. rewrite (advance_nil_eq st post Hr). reflexivity.
  - cbn [lit]. rewrite rmatch_Seq, rmatch_Char, consume_then.
    rewrite toUpperCase_cons. split.
    + destruct (rest st) as [|ch s'] eqn:Er; [intros []|].
      unfold charMatches. destruct (Ascii.eqb _ _) eqn:Ec; [|intros []].
      apply Ascii.eqb_eq in Ec.
      intros (w2 & -> & (Hw & post & Hr & ->)%IH)%In_map_extend.
      cbn [rest] in Hr. rewrite append_cons, append_nil_l, toUpperCase_cons.
      split; [congruence|]. exists post. rewrite append_cons, Hr. auto.
    + intros (Hw & post & Hr & ->). destruct w as [|ch w2]; [discriminate|].
      rewrite toUpperCase_cons in Hw. injection Hw as Hc Hw.
      rewrite append_cons in Hr. rewrite Hr.
      unfold charMatches. rewrite Hc, Ascii.eqb_refl.
      apply In_map_extend. exists w2. split; [reflexivity|].
      apply IH. split; [exact Hw|]. exists post. auto.
Qed.

Lemma In_category_alternatives st w st' :
  In (w, st')
     (rmatch true
        (Alt (lit "oc") (Alt (lit "bc") (Alt (lit "bcm")
        (Alt (lit "mbc") (Alt (lit "sc") (Alt (lit "sca") (lit "st")))))))
        st) ↔
  isCategoryText w ∧ ∃ post, rest st = w ++ post ∧ st' = advance st w post.
Proof.
  cbn [rmatch]. rewrite !in_app_iff, !In_lit.
  unfold isCategoryText, categoryCodes. cbn [In].
  change (toUpperCase "oc") with "OC". change (toUpperCase "bc") with "BC".
  change (toUpperCase "bcm") with "BCM". change (toUpperCase "mbc") with "MBC".
  change (toUpperCase "sc") with "SC". change (toUpperCase "sca") with "SCA".
  change (toUpperCase "st") with "ST".
  split.
  - intros [[E H]|[[E H]|[[E H]|[[E H]|[[E H]|[[E H]|[E H]]]]]]];
      (split; [rewrite E; auto 10|exact H]).
  - intros ([E|[E|[E|[E|[E|[E|[E|[]]]]]]]] & H); symmetry in E; auto 10.
Qed.

Lemma allChars_upper w :
  allChars isWordChar (toUpperCase w) = allChars isWordChar w.
Proof.
  induction w as [|c w IH]; [reflexivity|].
  rewrite toUpperCase_cons. simpl. rewrite isWordChar_upperChar, IH. reflexivity.
Qed.

Lemma isCategoryText_word w :
  isCategoryText w → allChars isWordChar w = true ∧ w ≠ "".
Proof.
  unfold isCategoryText, categoryCodes. intros H. split.
  - rewrite <- allChars_upper.
    destruct H as [E|[E|[E|[E|[E|[E|[E|[]]]]]]]]; rewrite <- E; reflexivity.
  - intros ->. simpl in H. 
    destruct H as [E|[E|[E|[E|[E|[E|[E|[]]]]]]]]; discriminate.
Qed.

Lemma word_head w post :
  allChars isWordChar w = true → w ≠ "" →
  isWordAt (headChar (w ++ post)) = true.
Proof.
  destruct w as [|c w]; [intros _ H; contradiction H; reflexivity|].
  simpl. intros [Hc _]%andb_prop _. exact Hc.
Qed.

Lemma word_last p w :
  allChars isWordChar w = true → w ≠ "" → isWordAt (lastOr p w) = true.
Proof.
  revert p. induction w as [|c w IH]; intros p Hw Hne; [contradiction Hne; reflexivity|].
  simpl in Hw. apply andb_prop in Hw as [Hc Hw]. simpl.
  destruct w as [|c' w]; [exact Hc|]. apply IH; [exact Hw|discriminate].
Qed.

(** Two words that start at the same place and end before a character that
    is not a word character are the same word. *)
Lemma word_unique w : ∀ w0 post post0,
  w ++ post = w0 ++ post0 →
  allChars isWordChar w = true → allChars isWordChar w0 = true →
  isWordAt (headChar post) = false → isWordAt (headChar post0) = false →
  w = w0.
Proof.
  induction w as [|c w IH]; intros [|c0 w0] post post0 E Hw Hw0 Hp Hp0.
  - reflexivity.
  - rewrite append_nil_l, append_cons in E. subst post. simpl in Hp, Hw0.
    apply andb_prop in Hw0 as [Hc _]. congruence.
  - rewrite append_nil_l, append_cons in E. subst post0. simpl in Hp0, Hw.
    apply andb_prop in Hw as [Hc _]. congruence.
  - rewrite !append_cons in E. injection E as <- E. simpl in Hw, Hw0.
    apply andb_prop in Hw as [_ Hw]. apply andb_prop in Hw0 as [_ Hw0].
    f_equal. eapply IH; eassumption.
Qed.

Lemma xorb_true_l_false a b : a = true → xorb b a = true → b = false.
Proof. intros ->. destruct b; [discriminate|reflexivity]. Qed.

Lemma xorb_true_r_false a b : a = true → xorb a b = true → b = false.
Proof. intros ->. destruct b; [discriminate|reflexivity]. Qed.

Lemma category_sound : tokenSound categoryRegExp isCategoryText.
Proof.
  intros p s w st'.
  intros (Hb1 & Hb2 & _ & st1 & Hin & Hp & Hr)%(In_framed _ _ _ _ _ categoryRegExp_framed).
  apply In_category_alternatives in Hin as (Hcat & post & Hs & ->).
  cbn [prev rest advance] in *. rewrite Hp, Hr in Hb2. rewrite Hs in Hb1.
  destruct (isCategoryText_word w Hcat) as [Hw Hne].
  split; [exact Hcat|]. split.
  - eapply xorb_true_l_false; [|exact Hb1]. apply word_head; assumption.
  - exists post. split; [exact Hs|].
    eapply xorb_true_r_false; [|exact Hb2]. apply word_last; assumption.
Qed.

Lemma category_complete : tokenComplete categoryRegExp isCategoryText.
Proof.
  intros p w post Hcat Hp Hpost.
  destruct (isCategoryText_word w Hcat) as [Hw Hne].
  set (st0 := {| prev := p; rest := w ++ post; cap1 := None |}).
  assert (In (w, {| prev := lastOr p w; rest := post; cap1 := Some w |})
             (rmatch (ignoreCase categoryRegExp) (pattern categoryRegExp) st0))
    as Hin.
  { apply (In_framed _ _ _ _ _ categoryRegExp_framed). cbn [prev rest st0].
    rewrite Hp, Hpost, (word_head w post Hw Hne), (word_last p w Hw Hne).
    repeat split.
    exists (advance st0 w post). split; [|split; reflexivity].
    apply In_category_alternatives. split; [exact Hcat|]. exists post. auto. }
  destruct (rmatch _ _ st0) as [|[w0 st0'] l] eqn:E; [destruct Hin|].
  exists w0, st0', l. split; [reflexivity|].
  destruct (category_sound p (w ++ post) w0 st0') as (Hcat0 & _ & post0 & Hs0 & Hpost0).
  { fold st0. rewrite E. left. reflexivity. }
  destruct (isCategoryText_word w0 Hcat0) as [Hw0 _].
  rewrite (word_unique w w0 post post0 Hs0 Hw Hw0 Hpost Hpost0). lia.
Qed.

(** ** The search for the first match *)

Lemma append_eq_length (a : string) : ∀ b c d,
  a ++ b = c ++ d → String.length a = String.length c → a = c ∧ b = d.
Proof.
  induction a as [|x a IH]; intros b [|y c] d E Hl; try discriminate.
  - auto.
  - rewrite !append_cons in E. injection E as <- E. simpl in Hl.
    destruct (IH b c d E) as [-> ->]; [lia|]. auto.
Qed.

Lemma lastChar_snoc pre c : lastChar (pre ++ String c "") = Some c.
Proof. rewrite lastChar_lastOr, lastOr_append. reflexivity. Qed.

Lemma length_snoc pre c :
  String.length (pre ++ String c "") = S (String.length pre).
Proof. rewrite length_append. simpl. lia. Qed.

Lemma append_snoc pre c s : (pre ++ String c "") ++ s = pre ++ String c s.
Proof. rewrite append_assoc. reflexivity. Qed.

Section Search.

Context (re : RegExp).

Lemma search_cons pre s :
  search re (String.length pre) (lastChar pre) s =
  match matchesAt re pre s with
  | (w, st) :: _ =>
      Some {| index := String.length pre; whole := w; group1 := cap1 st |}
  | [] =>
      match s with
      | "" => None
      | String c s' =>
          search re (String.length (pre ++ String c ""))
            (lastChar (pre ++ String c "")) s'
      end
  end.
Proof.
  destruct s as [|c s']; [reflexivity|].
  rewrite length_snoc, lastChar_snoc. reflexivity.
Qed.

Lemma search_None s : ∀ pre0,
  search re (String.length pre0) (lastChar pre0) s = None →
  ∀ k s', pre0 ++ s = k ++ s' → (String.length pre0 <= String.length k)%nat →
          matchesAt re k s' = [].
Proof.
  induction s as [|c s IH]; intros pre0 H k s' E Hlen; rewrite search_cons in H;
    destruct (matchesAt re pre0 _) as [|[w st] l] eqn:Em; try discriminate.
  - assert (String.length (pre0 ++ "") = String.length (k ++ s')) as Hl
      by (rewrite E; reflexivity).
    rewrite !length_append in Hl. simpl in Hl.
    destruct (append_eq_length pre0 "" k s' E) as [<- <-]; [lia|]. exact Em.
  - destruct (Nat.eq_dec (String.length pre0) (String.length k)) as [Heq|Hne].
    + destruct (append_eq_length pre0 _ k s' E Heq) as [<- <-]. exact Em.
    + apply (IH _ H); [rewrite append_snoc; exact E|rewrite length_snoc; lia].
Qed.

Lemma search_Some s : ∀ pre0 r,
  search re (String.length pre0) (lastChar pre0) s = Some r →
  ∃ pre s' st l,
    pre0 ++ s = pre ++ s' ∧ index r = String.length pre ∧
    matchesAt re pre s' = (whole r, st) :: l ∧
    ∀ k s'', pre0 ++ s = k ++ s'' →
             (String.length pre0 <= String.length k < String.length pre)%nat →
             matchesAt re k s'' = [].
Proof.
  induction s as [|c s IH]; intros pre0 r H; rewrite search_cons in H;
    destruct (matchesAt re pre0 _) as [|[w st] l] eqn:Em; try discriminate.
  - injection H as <-. exists pre0, "", st, l. cbn [index whole].
    repeat split; [exact Em|]. intros k s'' _ Hk. lia.
  - destruct (IH _ _ H) as (pre & s' & st & l & E & Hi & Hm & Hmin).
    rewrite append_snoc in E. rewrite length_snoc in Hmin.
    exists pre, s', st, l. repeat split; try assumption.
    intros k s'' Ek Hk.
    destruct (Nat.eq_dec (String.length pre0) (String.length k)) as [Heq|Hne].
    + destruct (append_eq_length pre0 _ k s'' Ek Heq) as [<- <-]. exact Em.
    + apply Hmin; [rewrite append_snoc; exact Ek|lia].
  - injection H as <-. exists pre0, (String c s), st, l. cbn [index whole].
    repeat split; [exact Em|]. intros k s'' _ Hk. lia.
Qed.

(** When the text holds a token of the kind the pattern stands for, the
    search finds the first one. *)
Lemma stringMatch_firstToken (P : string → Prop) (text : string) :
  tokenSound re P → tokenComplete re P →
  (∃ i w, occurs text i w ∧ P w) →
  ∃ r, stringMatch text re = Some r ∧ firstToken P text (whole r).
Proof.
  intros Hsound Hcomplete (i & w & (pre & post & Etext & Hi & Hpre & Hpost) & Hw).
  destruct (Hcomplete (lastChar pre) w post Hw Hpre Hpost)
    as (w0 & st0 & l0 & Hm0 & _).
  unfold stringMatch.
  change 0%nat with (String.length ""). change (@None ascii) with (lastChar "").
  destruct (search re _ _ text) as [r|] eqn:Es.
  - exists r. split; [reflexivity|].
    destruct (search_Some _ _ _ Es) as (pre1 & s1 & st1 & l1 & E1 & Hi1 & Hm1 & Hmin).
    rewrite append_nil_l in E1, Hmin.
    destruct (Hsound (lastChar pre1) s1 (whole r) st1) as (HP & Hp1 & post1 & Hs1 & Hpost1).
    { fold (matchesAt re pre1 s1). rewrite Hm1. left. reflexivity. }
    exists (String.length pre1). split; [|split; [exact HP|]].
    + exists pre1, post1. rewrite <- Hs1. auto.
    + intros i' w' (pre' & post' & E' & Hi' & Hpre' & Hpost') HP'.
      destruct (Hcomplete (lastChar pre') w' post' HP' Hpre' Hpost')
        as (w2 & st2 & l2 & Hm2 & Hlen2).
      fold (matchesAt re pre' (w' ++ post')) in Hm2.
      assert (String.length pre1 <= i')%nat as Hle.
      { destruct (Nat.le_gt_cases (String.length pre1) i') as [H|H]; [exact H|].
        rewrite (Hmin pre' (w' ++ post')) in Hm2;
          [discriminate|exact E'|simpl; lia]. }
      split; [exact Hle|]. intros Heq. subst i'.
      rewrite E1 in E'.
      destruct (append_eq_length pre1 s1 pre' (w' ++ post') E') as [Ep Es1];
        [congruence|].
      rewrite <- Ep, <- Es1, Hm1 in Hm2. injection Hm2 as <- _ _. exact Hlen2.
  - exfalso. pose proof (search_None _ _ Es pre (w ++ post)) as Hn.
    rewrite append_nil_l in Hn. unfold matchesAt in Hn.
    rewrite Hn in Hm0; [discriminate|exact Etext|simpl; lia].
Qed.

End Search.

(** ** The first tokens of the lower-cased text *)

Lemma toLowerCase_append a b :
  toLowerCase (a ++ b) = toLowerCase a ++ toLowerCase b.
Proof.
  induction a as [|c a IH]; [reflexivity|].
  rewrite append_cons. unfold toLowerCase in *. simpl. rewrite IH. reflexivity.
Qed.

(** C8: when rules 1 and 2 do not apply and the lower-cased text holds, as
    tokens, a score (one to three digits, possibly with a decimal part) and
    a category code, the classifier takes the first score token of the
    lower-cased text and its first category token, and calls the matcher
    once, with the number that [parseFloat] gives for the score token (the
    double nearest to its decimal value) as the marks and the category
    token in upper case as the category; its reply is built from what the
    matcher returns. In particular the first score of the text I am 18 and
    scored 190 is 18, and with a category added the matcher is called with
    18; a category typed in mixed case reaches the matcher in upper case;
    and the score text 199.49999999999999999999 reaches it as 199.5. *)
Theorem classifier_extracts_first_tokens (tnea_colleges : list College) :
  (∀ userInput : string,
     isGreeting (toLowerCase userInput) = false →
     isWellBeing (toLowerCase userInput) = false →
     (∃ i w, occurs (toLowerCase userInput) i w ∧ isScoreText w) →
     (∃ j c, occurs (toLowerCase userInput) j c ∧ isCategoryText c) →
     ∃ w c,
       firstToken isScoreText (toLowerCase userInput) w ∧
       firstToken isCategoryText (toLowerCase userInput) c ∧
       run (generateAIResponse tnea_colleges userInput) =
       (Return (matcherReply (parseFloat w) (toUpperCase c)
                  (findCollegesByMarks tnea_colleges (parseFloat w)
                     (toUpperCase c))),
        [(parseFloat w, toUpperCase c)]))
  ∧ stringMatch (toLowerCase "I am 18 and scored 190") marksRegExp =
    Some {| index := 5; whole := "18"; group1 := Some "18" |}
  ∧ firstToken isScoreText (toLowerCase "I am 18 and scored 190") "18"
  ∧ parseFloat "18" = Num 18
  ∧ run (generateAIResponse tnea_colleges "I am 18 and scored 190 in BC") =
    (Return (matcherReply (Num 18) "BC"
               (findCollegesByMarks tnea_colleges (Num 18) "BC")),
     [(Num 18, "BC")])
  ∧ run (generateAIResponse tnea_colleges "Got 18.5 in mBc") =
    (Return (matcherReply (Num (37 # 2)) "MBC"
               (findCollegesByMarks tnea_colleges (Num (37 # 2)) "MBC")),
     [(Num (37 # 2), "MBC")])
  ∧ run (generateAIResponse tnea_colleges "199.49999999999999999999 OC") =
    (Return (matcherReply (Num (399 # 2)) "OC"
               (findCollegesByMarks tnea_colleges (Num (399 # 2)) "OC")),
     [(Num (399 # 2), "OC")]).
Proof.
  split; [|split; [|split; [|split; [|split; [|split]]]]];
    try (rewrite run_generateAIResponse; reflexivity).
  - intros userInput Hg Hw Hscore Hcat.
    destruct (stringMatch_firstToken marksRegExp isScoreText _
                marks_sound marks_complete Hscore) as (m & Em & Hm).
    destruct (stringMatch_firstToken categoryRegExp isCategoryText _
                category_sound category_complete Hcat) as (c & Ec & Hc).
    exists (whole m), (whole c). split; [exact Hm|]. split; [exact Hc|].
    rewrite run_generateAIResponse. cbv zeta. rewrite Hg, Hw, Em, Ec.
    rewrite (search_group1 _ _ _ _ _ _ marksRegExp_framed Em). reflexivity.
  - reflexivity.
  - destruct (stringMatch_firstToken marksRegExp isScoreText
                (toLowerCase "I am 18 and scored 190")
                marks_sound marks_complete) as (m & Em & Hm).
    + exists 5%nat, "18". split.
      * exists "i am ", " and scored 190". repeat split; reflexivity.
      * exists "18", "". repeat split; simpl; auto.
    + vm_compute in Em. injection Em as <-. exact Hm.
  - reflexivity.
Qed.

Lemma classifier_extracts_first_tokens_witness :
  ∃ w c,
    firstToken isScoreText (toLowerCase "I scored 185 marks in BC category") w ∧
    firstToken isCategoryText
      (toLowerCase "I scored 185 marks in BC category") c ∧
    run (generateAIResponse sampleCatalog "I scored 185 marks in BC category") =
    (Return (matcherReply (parseFloat w) (toUpperCase c)
               (findCollegesByMarks sampleCatalog (parseFloat w)
                  (toUpperCase c))),
     [(parseFloat w, toUpperCase c)]).
Proof.
  apply (proj1 (classifier_extracts_first_tokens sampleCatalog)
           "I scored 185 marks in BC category").
  - reflexivity.
  - reflexivity.
  - exists 9%nat, "185". split.
    + exists "i scored ", " marks in bc category". repeat split; reflexivity.
    + exists "185", "". repeat split; simpl; auto.
  - exists 22%nat, "bc". split.
    + exists "i scored 185 marks in ", " category". repeat split; reflexivity.
    + unfold isCategoryText. simpl. auto.
Defined.

(** * The scenarios of the specification, on the sample catalog *)

Example scenario_score_and_category :
  run (generateAIResponse sampleCatalog "I scored 185 marks in BC category") =
  (Return
     {| content := foundText (Num 185) "BC" 3;
        suggestions :=
          Some [ mkSuggestion annaUniversity eceBranch (Num 185);
                 mkSuggestion annaUniversity cseBranch (Num 180);
                 mkSuggestion openCollege civilBranch (Num 120) ] |},
   [(Num 185, "BC")]).
Proof. vm_compute. reflexivity. Qed.

Example scenario_greeting_with_digits :
  run (generateAIResponse sampleCatalog "hello 185") = (Return greetingReply, []).
Proof. vm_compute. reflexivity. Qed.

Example scenario_no_match :
  run (generateAIResponse sampleCatalog "My cutoff is 50 and I'm in OC category") =
  (Return {| content := noMatchText (Num 50) "OC"; suggestions := None |},
   [(Num 50, "OC")]).
Proof. vm_compute. reflexivity. Qed.

Example scenario_college_question :
  run (generateAIResponse sampleCatalog "tell me about colleges") =
  (Return askDetailsReply, []).
Proof. vm_compute. reflexivity. Qed.

Example scenario_unrecognized :
  run (generateAIResponse sampleCatalog "xyz") = (Return defaultReply, []).
Proof. vm_compute. reflexivity. Qed.

Example scenario_decimal_marks :
  stringMatch "x 1234.5 185.25x 18.5" marksRegExp =
  Some {| index := 7; whole := "5"; group1 := Some "5" |}
  ∧ stringMatch "18.5x" marksRegExp =
    Some {| index := 0; whole := "18"; group1 := Some "18" |}
  ∧ stringMatch "got 185.25 in sca" marksRegExp =
    Some {| index := 4; whole := "185.25"; group1 := Some "185.25" |}
  ∧ stringMatch "got 185.25 in sca" categoryRegExp =
    Some {| index := 14; whole := "sca"; group1 := Some "sca" |}.
Proof. vm_compute. auto. Qed.

(** * Further properties of the matcher *)

Lemma getProp_number o k n :
  getProp o k = VNumber n → o !! k = Some (VNumber n).
Proof.
  unfold getProp. destruct (o !! k) as [v|]; [congruence|].
  destruct (bool_decide _); discriminate.
Qed.

(** X1: every suggestion the matcher returns is made from a branch of a
    college of the catalog: it carries the names and the address of that
    pair and, as cutoff, the number other than zero that the branch holds
    for the category. *)
Theorem matcher_suggestions_from_catalog
    (tnea_colleges : list College) (marks : number) (category : string) :
  Forall (fun sug =>
            ∃ college branch q,
              In college tnea_colleges ∧ In branch (branches college) ∧
              cutoffs_2024 branch !! category = Some (VNumber (Num q)) ∧
              ¬ (q == 0)%Q ∧
              sug = {| sg_college_name := college_name college;
                       sg_branch_name := branch_name branch;
                       cutoff := Num q;
                       sg_address := address college |})
         (findCollegesByMarks tnea_colleges marks category).
Proof.
  apply Forall_forall.
  intros sug Hs%list_elem_of_In%In_findCollegesByMarks%In_collect.
  destruct Hs as (college & branch & q & Hc & Hb & Hget & Hnz & _ & ->).
  exists college, branch, q. apply getProp_number in Hget. auto 10.
Qed.

Lemma visitBranch_nil_length marks category college branch :
  length (visitBranch marks category college [] branch) =
  if qualifies marks category branch then 1%nat else 0%nat.
Proof.
  rewrite visitBranch_qualifies. simpl.
  destruct (qualifies marks category branch) eqn:Hq; [|reflexivity].
  destruct (qualifies_number _ _ _ Hq) as (q & -> & _). reflexivity.
Qed.

Lemma length_flat_map_filter marks category college bs :
  length (flat_map (visitBranch marks category college []) bs) =
  length (List.filter (qualifies marks category) bs).
Proof.
  induction bs as [|b bs IH]; [reflexivity|]. simpl.
  rewrite length_app, IH, visitBranch_nil_length.
  destruct (qualifies marks category b); reflexivity.
Qed.

Lemma length_collect tnea_colleges marks category :
  length (collect tnea_colleges marks category) =
  length (qualifying tnea_colleges marks category).
Proof.
  rewrite collect_flat_map. unfold qualifying.
  induction tnea_colleges as [|c cs IH]; [reflexivity|]. simpl.
  rewrite !length_app, IH, length_flat_map_filter, length_map. reflexivity.
Qed.

Lemma length_array_sort {A} (cmp : A → A → number) l :
  length (array_sort cmp l) = length l.
Proof. apply Permutation_length, array_sort_perm. Qed.

Lemma length_findCollegesByMarks tnea_colleges marks category :
  length (findCollegesByMarks tnea_colleges marks category) =
  Nat.min 10 (length (qualifying tnea_colleges marks category)).
Proof.
  unfold findCollegesByMarks, sortedSuggestions.
  rewrite length_take, length_array_sort, length_collect. reflexivity.
Qed.

(** X2: the truncation keeps the highest cutoffs. The sorted sequence is
    the returned one followed by the dropped one, every returned suggestion
    has a cutoff at least as high as every dropped one, and the number of
    returned suggestions is the number of qualifying pairs of a college and
    a branch, capped at 10: nothing is dropped when at most 10 qualify. *)
Theorem matcher_keeps_highest
    (tnea_colleges : list College) (marks : number) (category : string) :
  sortedSuggestions tnea_colleges marks category =
    (findCollegesByMarks tnea_colleges marks category
     ++ drop 10 (sortedSuggestions tnea_colleges marks category))%list
  ∧ Forall (fun kept =>
              Forall (fun dropped =>
                        number_ge (cutoff kept) (cutoff dropped) = true)
                     (drop 10 (sortedSuggestions tnea_colleges marks category)))
           (findCollegesByMarks tnea_colleges marks category)
  ∧ length (findCollegesByMarks tnea_colleges marks category) =
    Nat.min 10 (length (qualifying tnea_colleges marks category)).
Proof.
  split; [|split].
  - unfold findCollegesByMarks. rewrite take_drop. reflexivity.
  - pose proof (array_sort_sorted (collect tnea_colleges marks category)
                  (collect_hasCutoff _ _ _)) as Hs.
    fold (sortedSuggestions tnea_colleges marks category) in Hs.
    rewrite <- (take_drop 10 (sortedSuggestions _ _ _)) in Hs.
    apply Forall_forall. intros kept Hk. apply Forall_forall. intros dropped Hd.
    exact (StronglySorted_app_1_elem_of _ _ _ _ _ Hs Hk Hd).
  - apply length_findCollegesByMarks.
Qed.

Lemma number_ge_trans a b c :
  number_ge a b = true → number_ge b c = true → number_ge a c = true.
Proof.
  destruct a as [|x], b as [|y], c as [|z]; simpl; try discriminate.
  rewrite !Qle_bool_iff. intros H1 H2. eapply Qle_trans; eassumption.
Qed.

Lemma qualifies_monotone marks1 marks2 category branch :
  number_ge marks2 marks1 = true →
  qualifies marks1 category branch = true →
  qualifies marks2 category branch = true.
Proof.
  intros Hge (q & Hget & Hnz & Hq)%qualifies_number.
  apply (qualifies_intro _ _ _ q Hget Hnz). eapply number_ge_trans; eassumption.
Qed.

Lemma length_filter_le {A} (p q : A → bool) l :
  (∀ x, p x = true → q x = true) →
  (length (List.filter p l) <= length (List.filter q l))%nat.
Proof.
  intros Hpq. induction l as [|x l IH]; [reflexivity|]. simpl.
  destruct (p x) eqn:Hp; [rewrite (Hpq x Hp); simpl; lia|].
  destruct (q x); simpl; lia.
Qed.

Lemma length_qualifying_monotone tnea_colleges marks1 marks2 category :
  number_ge marks2 marks1 = true →
  (length (qualifying tnea_colleges marks1 category)
   <= length (qualifying tnea_colleges marks2 category))%nat.
Proof.
  intros Hge. unfold qualifying.
  induction tnea_colleges as [|c cs IH]; [reflexivity|]. simpl.
  rewrite !length_app, !length_map.
  pose proof (length_filter_le (qualifies marks1 category)
                (qualifies marks2 category) (branches c)
                (fun b => qualifies_monotone _ _ _ b Hge)).
  lia.
Qed.

(** X3: a higher score never loses an offer. When the second score is at
    least the first, every suggestion found for the first score is found
    for the second one too (before the truncation to 10), and the matcher
    returns at least as many suggestions for the second score. *)
Theorem matcher_monotone_in_marks
    (tnea_colleges : list College) (marks1 marks2 : number) (category : string) :
  number_ge marks2 marks1 = true →
  Forall (fun sug => In sug (sortedSuggestions tnea_colleges marks2 category))
         (sortedSuggestions tnea_colleges marks1 category)
  ∧ (length (findCollegesByMarks tnea_colleges marks1 category)
     <= length (findCollegesByMarks tnea_colleges marks2 category))%nat.
Proof.
  intros Hge. split.
  - apply Forall_forall. intros sug Hs%list_elem_of_In%In_array_sort%In_collect.
    destruct Hs as (college & branch & q & Hc & Hb & Hget & Hnz & Hq & ->).
    apply In_array_sort, In_collect. exists college, branch, q.
    repeat split; try assumption. eapply number_ge_trans; eassumption.
  - rewrite !length_findCollegesByMarks.
    pose proof (length_qualifying_monotone tnea_colleges _ _ category Hge). lia.
Qed.

Lemma matcher_monotone_in_marks_witness :
  Forall (fun sug => In sug (sortedSuggestions sampleCatalog (Num 190) "BC"))
         (sortedSuggestions sampleCatalog (Num 182) "BC")
  ∧ (length (findCollegesByMarks sampleCatalog (Num 182) "BC")
     <= length (findCollegesByMarks sampleCatalog (Num 190) "BC"))%nat.
Proof.
  apply (matcher_monotone_in_marks sampleCatalog (Num 182) (Num 190) "BC").
  reflexivity.
Defined.

Lemma everyEntry_entry P tnea_colleges college branch k v :
  everyEntry P tnea_colleges →
  In college tnea_colleges → In branch (branches college) →
  cutoffs_2024 branch !! k = Some v → P k v.
Proof.
  intros Hinv Hc%list_elem_of_In Hb%list_elem_of_In Hk.
  unfold everyEntry in Hinv. rewrite Forall_forall in Hinv.
  specialize (Hinv college Hc). rewrite Forall_forall in Hinv.
  exact (Hinv branch Hb k v Hk).
Qed.

Lemma everyEntry_impl (P Q : string → value → Prop) tnea_colleges :
  (∀ k v, P k v → Q k v) →
  everyEntry P tnea_colleges → everyEntry Q tnea_colleges.
Proof.
  intros HPQ H. unfold everyEntry in *.
  eapply Forall_impl; [exact H|]. intros college Hc.
  eapply Forall_impl; [exact Hc|]. intros branch Hb k v Hk.
  apply HPQ, (Hb k v Hk).
Qed.

(** A catalog that keeps the invariant of the specification keeps both
    halves. *)
Lemma catalogInvariant_keys tnea_colleges :
  catalogInvariant tnea_colleges → keysAreCategoryCodes tnea_colleges.
Proof. apply everyEntry_impl. intros k v [Hk _]. exact Hk. Qed.

Lemma catalogInvariant_noNegative tnea_colleges :
  catalogInvariant tnea_colleges → noNegativeCutoff tnea_colleges.
Proof.
  apply everyEntry_impl. intros k v [_ Hv] q ->. exact Hv.
Qed.

(** X4: a category that is not one of the seven codes, written exactly,
    finds nothing in a catalog whose cutoff mappings have no key other
    than the seven codes, as the invariant of the catalog asks: a code in
    lower case, the empty text and the name of an inherited property such
    as constructor all give the empty sequence. *)
Theorem matcher_unknown_category
    (tnea_colleges : list College) (marks : number) (category : string) :
  keysAreCategoryCodes tnea_colleges →
  ¬ In category categoryCodes →
  findCollegesByMarks tnea_colleges marks category = [].
Proof.
  intros Hinv Hcat. unfold findCollegesByMarks, sortedSuggestions.
  rewrite noneQualify_collect; [reflexivity|].
  intros college branch Hc Hb. unfold qualifies, getProp.
  destruct (cutoffs_2024 branch !! category) as [v|] eqn:Hk.
  - destruct Hcat. exact (everyEntry_entry _ _ _ _ _ _ Hinv Hc Hb Hk).
  - destruct (bool_decide _); reflexivity.
Qed.

Lemma sampleCatalog_invariant : catalogInvariant sampleCatalog.
Proof.
  unfold catalogInvariant, sampleCatalog.
  repeat first [apply Forall_nil_2 | apply Forall_cons_2]; simpl;
    repeat first [apply Forall_nil_2 | apply Forall_cons_2];
    (apply map_Forall_insert_2; [|apply map_Forall_singleton]);
    (split; [simpl; auto 10|reflexivity]).
Qed.

Lemma matcher_unknown_category_witness :
  findCollegesByMarks sampleCatalog (Num 200) "bc" = []
  ∧ findCollegesByMarks sampleCatalog (Num 200) "constructor" = [].
Proof.
  split; apply matcher_unknown_category;
    [apply catalogInvariant_keys, sampleCatalog_invariant|
    |apply catalogInvariant_keys, sampleCatalog_invariant|];
    simpl; intros H; repeat (destruct H as [H|H]; [discriminate H|]); exact H.
Defined.

(** X5: in a catalog in which no cutoff is a negative number, as the
    invariant of the catalog asks, a score that is not above zero finds
    nothing: not a negative score, not the score 0, and not a score that is
    not a number. *)
Theorem matcher_needs_positive_marks
    (tnea_colleges : list College) (marks : number) (category : string) :
  noNegativeCutoff tnea_colleges →
  (∀ q, marks = Num q → (q <= 0)%Q) →
  findCollegesByMarks tnea_colleges marks category = [].
Proof.
  intros Hinv Hm. unfold findCollegesByMarks, sortedSuggestions.
  rewrite noneQualify_collect; [reflexivity|].
  intros college branch Hc Hb.
  destruct (qualifies marks category branch) eqn:Hq; [exfalso|reflexivity].
  apply qualifies_number in Hq as (q & Hget%getProp_number & Hnz & Hge).
  pose proof (everyEntry_entry _ _ _ _ _ _ Hinv Hc Hb Hget q eq_refl) as Hpos.
  destruct marks as [|m]; [discriminate|]. simpl in Hge.
  apply Qle_bool_iff in Hge, Hpos. specialize (Hm m eq_refl).
  apply Hnz. lra.
Qed.

Lemma matcher_needs_positive_marks_witness :
  findCollegesByMarks sampleCatalog (Num 0) "OC" = []
  ∧ findCollegesByMarks sampleCatalog NaN "OC" = [].
Proof.
  split; apply matcher_needs_positive_marks;
    try apply catalogInvariant_noNegative, sampleCatalog_invariant.
  - intros q [= <-]. apply Qle_refl.
  - intros q H. discriminate H.
Defined.

Lemma filter_sort_insert q x l :
  hasCutoff x → Forall hasCutoff l →
  List.filter (cutoffIs q) (sort_insert byCutoffDesc x l) =
  List.filter (cutoffIs q) (x :: l).
Proof.
  intros [a Ha] Hl. induction l as [|y l IH]; [reflexivity|].
  apply Forall_cons_1 in Hl as [[b Hb] Hl]. cbn [sort_insert].
  destruct (number_pos (byCutoffDesc x y)) eqn:Hpos; [|reflexivity].
  cbn [List.filter]. rewrite (IH Hl). cbn [List.filter].
  unfold byCutoffDesc in Hpos. rewrite Ha, Hb in Hpos. simpl in Hpos.
  apply negb_true_iff in Hpos.
  unfold cutoffIs. rewrite Ha, Hb.
  destruct (Qeq_bool a q) eqn:Ea, (Qeq_bool b q) eqn:Eb; try reflexivity.
  exfalso. apply Qeq_bool_iff in Ea, Eb.
  assert (Qle_bool (b - a) 0 = true) as E; [|congruence].
  apply Qle_bool_iff. lra.
Qed.

Lemma filter_array_sort q l :
  Forall hasCutoff l →
  List.filter (cutoffIs q) (array_sort byCutoffDesc l) =
  List.filter (cutoffIs q) l.
Proof.
  induction l as [|x l IH]; intros Hl; [reflexivity|].
  apply Forall_cons_1 in Hl as [Hx Hl]. cbn [array_sort].
  rewrite filter_sort_insert.
  - cbn [List.filter]. rewrite (IH Hl). reflexivity.
  - exact Hx.
  - apply Forall_forall. intros z Hz%list_elem_of_In%In_array_sort.
    rewrite Forall_forall in Hl. apply Hl, list_elem_of_In, Hz.
Qed.

(** X6: the sort is stable on the suggestions. For every number, the
    suggestions with that cutoff stand in the sorted sequence in the order
    in which the loops over the colleges and their branches pushed them,
    that is in the order of the catalog. *)
Theorem matcher_ties_in_catalog_order
    (tnea_colleges : list College) (marks : number) (category : string) (q : Q) :
  List.filter (cutoffIs q) (sortedSuggestions tnea_colleges marks category) =
  List.filter (cutoffIs q) (collect tnea_colleges marks category).
Proof. apply filter_array_sort, collect_hasCutoff. Qed.

(** * Further properties of the classifier *)

(** What the search finds is a token of the kind of the pattern. *)
Lemma stringMatch_Some_token (re : RegExp) (P : string → Prop) text r :
  tokenSound re P → stringMatch text re = Some r →
  ∃ i, occurs text i (whole r) ∧ P (whole r).
Proof.
  intros Hsound Es. unfold stringMatch in Es.
  change 0%nat with (String.length "") in Es.
  change (@None ascii) with (lastChar "") in Es.
  destruct (search_Some _ _ _ _ Es) as (pre & s' & st & l & E & _ & Hm & _).
  rewrite append_nil_l in E.
  destruct (Hsound (lastChar pre) s' (whole r) st) as (HP & Hp & post & Hs & Hpost).
  { fold (matchesAt re pre s'). rewrite Hm. left. reflexivity. }
  exists (String.length pre). split; [|exact HP].
  exists pre, post. rewrite <- Hs. auto.
Qed.

Lemma digitValue_range c :
  isDigit c = true → (0 <= Z.of_N (N_of_ascii c) - 48 <= 9)%Z.
Proof.
  unfold isDigit. intros [H1 H2]%andb_prop.
  apply N.leb_le in H1, H2. lia.
Qed.

Lemma digitsValue_acc s : ∀ acc,
  digitsValue acc s =
  (acc * 10 ^ Z.of_nat (String.length s) + digitsValue 0 s)%Z.
Proof.
  induction s as [|c s IH]; intros acc.
  - simpl. lia.
  - cbn [digitsValue String.length]. rewrite (IH (10 * acc + _)%Z), (IH (10 * 0 + _)%Z).
    rewrite Nat2Z.inj_succ, Z.pow_succ_r by lia. ring.
Qed.

Lemma digitsValue_bounds s :
  allChars isDigit s = true →
  (0 <= digitsValue 0 s < 10 ^ Z.of_nat (String.length s))%Z.
Proof.
  induction s as [|c s IH]; [simpl; lia|].
  cbn [allChars]. intros [Hc Hs]%andb_prop. specialize (IH Hs).
  cbn [digitsValue String.length]. rewrite digitsValue_acc.
  rewrite Nat2Z.inj_succ, Z.pow_succ_r by lia.
  pose proof (digitValue_range c Hc).
  assert (0 < 10 ^ Z.of_nat (String.length s))%Z by (apply Z.pow_pos_nonneg; lia).
  nia.
Qed.

Lemma takeDigits_all d :
  allChars isDigit d = true → takeDigits d = (d, "").
Proof.
  intros Hd. rewrite <- (append_nil_r d) at 1.
  apply takeDigits_append; [exact Hd|exact I].
Qed.

Lemma roundHalfEven_bounds a b :
  (0 <= a)%Z → (0 < b)%Z → (a / b <= roundHalfEven a b <= a / b + 1)%Z.
Proof.
  intros Ha Hb. unfold roundHalfEven.
  destruct (2 * (a mod b) ?= b)%Z; [destruct (Z.even (a / b))| |]; lia.
Qed.

Lemma binaryExponent_le n d : (binaryExponent n d <= Z.log2 n - Z.log2 d)%Z.
Proof. unfold binaryExponent. destruct (_ <=? _)%Z; lia. Qed.

(** Rounding does not leave the interval from 0 to 1000: both ends are
    doubles. *)
Lemma roundToDouble_bounds q :
  (0 <= q)%Q → (q < 1000)%Q →
  (0 <= roundToDouble q)%Q ∧ (roundToDouble q <= 1000)%Q.
Proof.
  destruct q as [n d]. intros H0 H1. unfold Qle, Qlt in H0, H1.
  cbn [Qnum Qden] in H0, H1. unfold roundToDouble. cbn [Qnum Qden].
  destruct n as [|n|n]; [split; unfold Qle; simpl; lia| |lia].
  unfold roundPositive.
  set (e := Z.max (-1074) (binaryExponent (Z.pos n) (Z.pos d) - 52)).
  assert (e <= -42)%Z as He.
  { pose proof (binaryExponent_le (Z.pos n) (Z.pos d)).
    assert (Z.log2 (Z.pos n) <= 10 + Z.log2 (Z.pos d))%Z.
    { rewrite <- Z.log2_mul_pow2 by lia. apply Z.log2_le_mono.
      change (2 ^ 10)%Z with 1024%Z. lia. }
    unfold e. lia. }
  cbv zeta. rewrite (Z.max_l 0 e), (Z.max_r 0 (- e)) by lia.
  rewrite Z.pow_0_r, !Z.mul_1_r.
  set (s := (2 ^ (- e))%Z).
  assert (0 < s)%Z as Hs by (apply Z.pow_pos_nonneg; lia).
  pose proof (roundHalfEven_bounds (Z.pos n * s) (Z.pos d)) as Hm.
  assert (Z.pos n * s / Z.pos d < 1000 * s)%Z
    by (apply Z.div_lt_upper_bound; nia).
  assert (0 <= Z.pos n * s / Z.pos d)%Z by (apply Z.div_pos; nia).
  rewrite !Qred_correct. unfold Qle. cbn [Qnum Qden].
  rewrite Z2Pos.id by exact Hs. lia.
Qed.

(** The value of a score text is a number from 0 up to 1000. *)
Lemma parseFloat_score w :
  isScoreText w → ∃ q, parseFloat w = Num q ∧ (0 <= q)%Q ∧ (q <= 1000)%Q.
Proof.
  intros (ip & fp & -> & Hip & Hlen & Hfp).
  pose proof (digitsValue_bounds ip Hip) as Hvi.
  assert (10 ^ Z.of_nat (String.length ip) <= 10 ^ 3)%Z as Hp
    by (apply Z.pow_le_mono_r; lia).
  assert (String.eqb ip "" = false) as Hne
    by (destruct ip; [simpl in Hlen; lia|reflexivity]).
  unfold parseFloat.
  destruct Hfp as [->|(d & -> & Hdne & Hd)].
  - rewrite append_nil_r, (takeDigits_all ip Hip), Hne. cbn [andb String.length].
    eexists. split; [reflexivity|].
    apply roundToDouble_bounds; unfold Qle, Qlt; simpl; lia.
  - rewrite (takeDigits_append ip (String "." d) Hip) by reflexivity.
    rewrite (takeDigits_all d Hd), Hne. cbn [andb fst].
    pose proof (digitsValue_bounds d Hd) as Hvd.
    assert (0 < 10 ^ Z.of_nat (String.length d))%Z as Hs
      by (apply Z.pow_pos_nonneg; lia).
    eexists. split; [reflexivity|].
    apply roundToDouble_bounds; unfold Qle, Qlt; cbn [Qnum Qden];
      rewrite Z2Pos.id by exact Hs; nia.
Qed.

(** X7: the classifier calls the matcher at most once, and only with
    sound arguments: the category is one of the seven codes, in upper
    case, and the marks are a number from 0 up to 1000, never the value
    that is not a number. The marks can be 1000 itself: the score text
    999.99999999999999999999, which has three digits before the point, is
    nearer to the double 1000 than to any other. *)
Theorem classifier_call_arguments
    (tnea_colleges : list College) (userInput : string) :
  (length (snd (run (generateAIResponse tnea_colleges userInput))) <= 1)%nat
  ∧ Forall (fun c : call =>
              In (snd c) categoryCodes ∧
              ∃ q, fst c = Num q ∧ (0 <= q)%Q ∧ (q <= 1000)%Q)
           (snd (run (generateAIResponse tnea_colleges userInput)))
  ∧ snd (run (generateAIResponse tnea_colleges "999.99999999999999999999 OC")) =
    [(Num 1000, "OC")].
Proof.
  apply and_assoc. split; [|rewrite run_generateAIResponse; reflexivity].
  rewrite run_generateAIResponse. cbv zeta.
  destruct (isGreeting _); [simpl; auto|].
  destruct (isWellBeing _); [simpl; auto|].
  destruct (stringMatch _ marksRegExp) as [m|] eqn:Em;
    [destruct (stringMatch _ categoryRegExp) as [c|] eqn:Ec|];
    try (destruct (isCollegeQuery _); simpl; auto).
  cbn [snd]. split; [simpl; lia|].
  apply Forall_cons_2; [|apply Forall_nil_2]. cbn [fst snd].
  destruct (stringMatch_Some_token _ _ _ _ marks_sound Em) as (i & _ & Hm).
  destruct (stringMatch_Some_token _ _ _ _ category_sound Ec) as (j & _ & Hc).
  split; [exact Hc|].
  rewrite (search_group1 _ _ _ _ _ _ marksRegExp_framed Em). cbn [parseFloatOf].
  apply parseFloat_score, Hm.
Qed.

(** X8: the classifier calls the matcher exactly when neither a greeting
    nor a well-being phrase is in the lower-cased text and that text holds
    both a score and a category code as tokens. *)
Theorem classifier_calls_matcher_iff
    (tnea_colleges : list College) (userInput : string) :
  snd (run (generateAIResponse tnea_colleges userInput)) ≠ []
  ↔ isGreeting (toLowerCase userInput) = false
    ∧ isWellBeing (toLowerCase userInput) = false
    ∧ (∃ i w, occurs (toLowerCase userInput) i w ∧ isScoreText w)
    ∧ (∃ j c, occurs (toLowerCase userInput) j c ∧ isCategoryText c).
Proof.
  rewrite run_generateAIResponse. cbv zeta. split.
  - destruct (isGreeting _); [intros H; contradiction H; reflexivity|].
    destruct (isWellBeing _); [intros H; contradiction H; reflexivity|].
    destruct (stringMatch _ marksRegExp) as [m|] eqn:Em;
      [destruct (stringMatch _ categoryRegExp) as [c|] eqn:Ec|];
      try (destruct (isCollegeQuery _); intros H; contradiction H; reflexivity).
    intros _.
    destruct (stringMatch_Some_token _ _ _ _ marks_sound Em) as (i & Hi & Hm).
    destruct (stringMatch_Some_token _ _ _ _ category_sound Ec) as (j & Hj & Hc).
    eauto 10.
  - intros (-> & -> & Hscore & Hcat).
    destruct (stringMatch_firstToken marksRegExp isScoreText _
                marks_sound marks_complete Hscore) as (m & -> & _).
    destruct (stringMatch_firstToken categoryRegExp isCategoryText _
                category_sound category_complete Hcat) as (c & -> & _).
    discriminate.
Qed.

Lemma findCollegesByMarks_reached tnea_colleges marks category sug :
  In sug (findCollegesByMarks tnea_colleges marks category) →
  number_ge marks (cutoff sug) = true.
Proof.
  intros Hs%In_findCollegesByMarks%In_collect.
  destruct Hs as (college & branch & q & _ & _ & _ & _ & Hge & ->). exact Hge.
Qed.

Lemma attached_is_matcher_answer tnea_colleges userInput reply log found :
  run (generateAIResponse tnea_colleges userInput) = (Return reply, log) →
  suggestions reply = Some found →
  ∃ marks category,
    log = [(marks, category)] ∧
    found = findCollegesByMarks tnea_colleges marks category ∧
    (0 < length found)%nat ∧
    content reply = foundText marks category (length found).
Proof.
  rewrite run_generateAIResponse. cbv zeta.
  destruct (isGreeting _); [intros [= <- <-]; discriminate|].
  destruct (isWellBeing _); [intros [= <- <-]; discriminate|].
  destruct (stringMatch _ marksRegExp) as [m|];
    [destruct (stringMatch _ categoryRegExp) as [c|]|];
    try (destruct (isCollegeQuery _); intros [= <- <-]; discriminate).
  intros [= <- <-]. unfold matcherReply.
  destruct (0 <? _)%nat eqn:Hlen; [|discriminate].
  cbn [suggestions content]. intros [= <-].
  eexists _, _. split; [reflexivity|]. split; [reflexivity|].
  apply Nat.ltb_lt in Hlen. split; [exact Hlen|reflexivity].
Qed.

Lemma attached_length tnea_colleges userInput reply log found :
  run (generateAIResponse tnea_colleges userInput) = (Return reply, log) →
  suggestions reply = Some found → (1 <= length found <= 10)%nat.
Proof.
  intros Hr Hs.
  destruct (attached_is_matcher_answer _ _ _ _ _ Hr Hs)
    as (marks & category & _ & Hf & Hlen & _).
  split; [lia|]. rewrite Hf, length_findCollegesByMarks. apply Nat.le_min_l.
Qed.

(** X9: a reply carries suggestions only as the answer of the matcher.
    When a reply has suggestions attached, the run made one call of the
    matcher, the attached sequence is what that call returned, it holds
    between 1 and 10 suggestions, each with a cutoff that the extracted
    marks reach, and the text of the reply states their number. *)
Theorem classifier_attached_suggestions
    (tnea_colleges : list College) (userInput : string)
    (reply : Reply) (log : list call) (found : list CollegeSuggestion) :
  run (generateAIResponse tnea_colleges userInput) = (Return reply, log) →
  suggestions reply = Some found →
  ∃ marks category,
    log = [(marks, category)] ∧
    found = findCollegesByMarks tnea_colleges marks category ∧
    (1 <= length found <= 10)%nat ∧
    Forall (fun sug => number_ge marks (cutoff sug) = true) found ∧
    content reply = foundText marks category (length found).
Proof.
  intros Hr Hs.
  destruct (attached_is_matcher_answer _ _ _ _ _ Hr Hs)
    as (marks & category & Hlog & Hf & Hlen & Hc).
  exists marks, category. split; [exact Hlog|]. split; [exact Hf|].
  split; [exact (attached_length _ _ _ _ _ Hr Hs)|]. split; [|exact Hc].
  apply Forall_forall. intros sug Hin%list_elem_of_In. rewrite Hf in Hin.
  exact (findCollegesByMarks_reached _ _ _ _ Hin).
Qed.

Lemma classifier_attached_suggestions_witness :
  ∃ marks category,
    [(Num 185, "BC")] = [(marks, category)] ∧
    [mkSuggestion annaUniversity eceBranch (Num 185);
     mkSuggestion annaUniversity cseBranch (Num 180);
     mkSuggestion openCollege civilBranch (Num 120)] =
      findCollegesByMarks sampleCatalog marks category ∧
    (1 <= 3 <= 10)%nat ∧
    Forall (fun sug => number_ge marks (cutoff sug) = true)
      [mkSuggestion annaUniversity eceBranch (Num 185);
       mkSuggestion annaUniversity cseBranch (Num 180);
       mkSuggestion openCollege civilBranch (Num 120)] ∧
    foundText (Num 185) "BC" 3 = foundText marks category 3.
Proof.
  apply (classifier_attached_suggestions sampleCatalog
           "I scored 185 marks in BC category"
           {| content := foundText (Num 185) "BC" 3;
              suggestions :=
                Some [mkSuggestion annaUniversity eceBranch (Num 185);
                      mkSuggestion annaUniversity cseBranch (Num 180);
                      mkSuggestion openCollege civilBranch (Num 120)] |}
           [(Num 185, "BC")]).
  - vm_compute. reflexivity.
  - reflexivity.
Defined.

(** * The classifier and white space around the text *)

Lemma isWhiteSpace_notWord c : isWhiteSpace c = true → isWordChar c = false.
Proof. destruct c as [[] [] [] [] [] [] [] []]; try discriminate; reflexivity. Qed.

Lemma isWhiteSpace_lowerChar c : isWhiteSpace c = true → lowerChar c = c.
Proof. destruct c as [[] [] [] [] [] [] [] []]; try discriminate; reflexivity. Qed.

Lemma isWordChar_notSpace c : isWordChar c = true → negb (isWhiteSpace c) = true.
Proof.
  intros H. destruct (isWhiteSpace c) eqn:E; [|reflexivity].
  rewrite (isWhiteSpace_notWord c E) in H. discriminate.
Qed.

Lemma allChars_impl (p q : ascii → bool) s :
  (∀ c, p c = true → q c = true) → allChars p s = true → allChars q s = true.
Proof.
  intros Hpq. induction s as [|c s IH]; [reflexivity|]. simpl.
  intros [Hc Hs]%andb_prop. rewrite (Hpq c Hc), (IH Hs). reflexivity.
Qed.

Lemma allChars_append p a b :
  allChars p (a ++ b) = allChars p a && allChars p b.
Proof.
  induction a as [|c a IH]; [reflexivity|].
  rewrite append_cons. simpl. rewrite IH, andb_assoc. reflexivity.
Qed.

Lemma score_tokenText : tokenText isScoreText.
Proof.
  intros w (ip & fp & -> & Hip & Hlen & Hfp). split.
  - destruct ip as [|c ip]; [simpl in Hlen; lia|]. simpl in *.
    apply andb_prop in Hip as [Hc _]. apply isDigit_isWordChar, Hc.
  - assert (∀ d, allChars isDigit d = true →
                 allChars (fun c => negb (isWhiteSpace c)) d = true) as Hdig.
    { intros d. apply allChars_impl. intros c Hc.
      apply isWordChar_notSpace, isDigit_isWordChar, Hc. }
    rewrite allChars_append, (Hdig ip Hip).
    destruct Hfp as [->|(d & -> & _ & Hd)]; [reflexivity|].
    simpl. apply Hdig, Hd.
Qed.

Lemma category_tokenText : tokenText isCategoryText.
Proof.
  intros w [Hw Hne]%isCategoryText_word. split.
  - destruct w as [|c w]; [contradiction Hne; reflexivity|].
    simpl in *. apply andb_prop in Hw as [Hc _]. exact Hc.
  - revert Hw. apply allChars_impl, isWordChar_notSpace.
Qed.

Lemma append_snoc_inv y : ∀ x c z,
  x ++ String c "" = y ++ z → z ≠ "" →
  ∃ z', z = z' ++ String c "" ∧ x = y ++ z'.
Proof.
  induction y as [|e y IH]; intros x c z E Hz.
  - exists x. rewrite append_nil_l in E. auto.
  - destruct x as [|e' x].
    + rewrite append_nil_l, append_cons in E. injection E as _ E.
      destruct y; [|discriminate]. rewrite append_nil_l in E. congruence.
    + rewrite !append_cons in E. injection E as -> E.
      destruct (IH x c z E Hz) as (z' & -> & ->). exists z'. auto.
Qed.

Section TokensAndSpace.

Context (P : string → Prop) (HP : tokenText P).

Lemma token_not_space_headed c x w b :
  isWhiteSpace c = true → ¬ tokenAt P b (String c x) w.
Proof.
  intros Hc (Hw & _ & post & E & _). destruct (HP w Hw) as [Hh _].
  destruct w as [|d w]; [discriminate|]. rewrite append_cons in E.
  injection E as <- _. simpl in Hh. rewrite (isWhiteSpace_notWord c Hc) in Hh.
  discriminate.
Qed.

Lemma token_not_in_empty b w : ¬ tokenAt P b "" w.
Proof.
  intros (Hw & _ & post & E & _). destruct (HP w Hw) as [Hh _].
  destruct w; discriminate.
Qed.

Lemma tokenAt_before b1 b2 x w :
  isWordAt b1 = isWordAt b2 → tokenAt P b1 x w ↔ tokenAt P b2 x w.
Proof. intros E. unfold tokenAt. rewrite E. reflexivity. Qed.

Lemma tokenAt_trailing b x c w :
  isWhiteSpace c = true →
  tokenAt P b (x ++ String c "") w ↔ tokenAt P b x w.
Proof.
  intros Hc. split.
  - intros (Hw & Hb & post & E & Hpost). destruct (HP w Hw) as [_ Hns].
    assert (post ≠ "") as Hne.
    { intros ->. rewrite append_nil_r in E. rewrite <- E, allChars_append in Hns.
      simpl in Hns. rewrite Hc in Hns. rewrite andb_false_r in Hns. discriminate. }
    destruct (append_snoc_inv w x c post E Hne) as (post' & -> & ->).
    split; [exact Hw|]. split; [exact Hb|]. exists post'. split; [reflexivity|].
    destruct post' as [|d post']; [reflexivity|exact Hpost].
  - intros (Hw & Hb & post & -> & Hpost).
    split; [exact Hw|]. split; [exact Hb|].
    exists (post ++ String c ""). rewrite append_assoc. split; [reflexivity|].
    destruct post as [|d post]; [|exact Hpost].
    simpl. apply isWhiteSpace_notWord, Hc.
Qed.

End TokensAndSpace.

Section MatchesAndSpace.

Context (re : RegExp) (a : regex) (P : string → Prop).
Context (Hframed : framed re a) (Hsound : tokenSound re P)
        (Hcomplete : tokenComplete re P) (HP : tokenText P).

Lemma rmatch_tokenAt b x w st :
  In (w, st) (rmatch (ignoreCase re) (pattern re)
                {| prev := b; rest := x; cap1 := None |}) →
  tokenAt P b x w ∧ cap1 st = Some w.
Proof.
  intros Hin. split; [exact (Hsound b x w st Hin)|].
  apply (In_framed re a _ _ _ Hframed) in Hin. tauto.
Qed.

Lemma tokenAt_rmatch b x w :
  tokenAt P b x w →
  ∃ w0 st0 l,
    rmatch (ignoreCase re) (pattern re)
      {| prev := b; rest := x; cap1 := None |} = (w0, st0) :: l ∧
    (String.length w <= String.length w0)%nat.
Proof. intros (Hw & Hb & post & -> & Hpost). apply Hcomplete; assumption. Qed.

(** The first match found at a place depends only on the tokens there. *)
Lemma first_match_agree b1 x1 b2 x2 :
  (∀ w, tokenAt P b1 x1 w ↔ tokenAt P b2 x2 w) →
  option_map (fun m : string * mstate => (fst m, cap1 (snd m)))
    (head (rmatch (ignoreCase re) (pattern re)
             {| prev := b1; rest := x1; cap1 := None |})) =
  option_map (fun m : string * mstate => (fst m, cap1 (snd m)))
    (head (rmatch (ignoreCase re) (pattern re)
             {| prev := b2; rest := x2; cap1 := None |})).
Proof.
  intros Heq.
  destruct (rmatch _ _ {| prev := b1 |}) as [|[w1 st1] l1] eqn:E1;
    destruct (rmatch _ _ {| prev := b2 |}) as [|[w2 st2] l2] eqn:E2.
  - reflexivity.
  - exfalso. destruct (rmatch_tokenAt b2 x2 w2 st2) as [H2 _];
      [rewrite E2; left; reflexivity|].
    apply Heq, tokenAt_rmatch in H2 as (? & ? & ? & H & _). congruence.
  - exfalso. destruct (rmatch_tokenAt b1 x1 w1 st1) as [H1 _];
      [rewrite E1; left; reflexivity|].
    apply Heq, tokenAt_rmatch in H1 as (? & ? & ? & H & _). congruence.
  - destruct (rmatch_tokenAt b1 x1 w1 st1) as [H1 C1];
      [rewrite E1; left; reflexivity|].
    destruct (rmatch_tokenAt b2 x2 w2 st2) as [H2 C2];
      [rewrite E2; left; reflexivity|].
    assert (String.length w1 <= String.length w2)%nat as L12.
    { apply Heq, tokenAt_rmatch in H1 as (w0 & st0 & l0 & H & Hl).
      rewrite E2 in H. injection H as <- _ _. exact Hl. }
    assert (String.length w2 <= String.length w1)%nat as L21.
    { pose proof H2 as H2'. apply Heq, tokenAt_rmatch in H2' as (w0 & st0 & l0 & H & Hl).
      rewrite E1 in H. injection H as <- _ _. exact Hl. }
    apply Heq in H2. destruct H1 as (_ & _ & p1 & X1 & _).
    destruct H2 as (_ & _ & p2 & X2 & _). rewrite X1 in X2.
    destruct (append_eq_length w1 p1 w2 p2 X2) as [<- _]; [lia|].
    simpl. rewrite C1, C2. reflexivity.
Qed.

Lemma search_unfold i b x :
  search re i b x =
  match rmatch (ignoreCase re) (pattern re)
          {| prev := b; rest := x; cap1 := None |} with
  | (w, st) :: _ => Some {| index := i; whole := w; group1 := cap1 st |}
  | [] =>
      match x with
      | "" => None
      | String c x' => search re (S i) (Some c) x'
      end
  end.
Proof. destruct x; reflexivity. Qed.

(** One step of the search on two texts whose tokens at the place agree. *)
Lemma search_step_agree i1 b1 x1 i2 b2 x2 :
  (∀ w, tokenAt P b1 x1 w ↔ tokenAt P b2 x2 w) →
  matchText
    (match x1 with
     | "" => None
     | String c x' => search re (S i1) (Some c) x'
     end) =
  matchText
    (match x2 with
     | "" => None
     | String c x' => search re (S i2) (Some c) x'
     end) →
  matchText (search re i1 b1 x1) = matchText (search re i2 b2 x2).
Proof.
  intros Heq Hnext. rewrite (search_unfold i1), (search_unfold i2).
  pose proof (first_match_agree b1 x1 b2 x2 Heq) as Hh.
  destruct (rmatch _ _ {| prev := b1 |}) as [|[w1 st1] l1];
    destruct (rmatch _ _ {| prev := b2 |}) as [|[w2 st2] l2];
    try discriminate Hh.
  - exact Hnext.
  - simpl in Hh. injection Hh as -> ->. reflexivity.
Qed.

Lemma search_index x : ∀ i j b,
  matchText (search re i b x) = matchText (search re j b x).
Proof.
  induction x as [|c x IH]; intros i j b;
    apply search_step_agree; try reflexivity. apply IH.
Qed.

Lemma search_before i j b1 b2 x :
  isWordAt b1 = isWordAt b2 →
  matchText (search re i b1 x) = matchText (search re j b2 x).
Proof.
  intros E. apply search_step_agree.
  - intros w. apply tokenAt_before, E.
  - destruct x as [|c x]; [reflexivity|]. apply search_index.
Qed.

Lemma stringMatch_leading c x :
  isWhiteSpace c = true →
  matchText (stringMatch (String c x) re) = matchText (stringMatch x re).
Proof.
  intros Hc. unfold stringMatch. rewrite search_unfold.
  destruct (rmatch _ _ _) as [|[w st] l] eqn:E.
  - apply search_before. simpl. apply isWhiteSpace_notWord, Hc.
  - exfalso. destruct (rmatch_tokenAt None (String c x) w st) as [H _];
      [rewrite E; left; reflexivity|].
    exact (token_not_space_headed P HP c x w None Hc H).
Qed.

Lemma search_trailing c x : ∀ i b,
  isWhiteSpace c = true →
  matchText (search re i b (x ++ String c "")) = matchText (search re i b x).
Proof.
  induction x as [|d x IH]; intros i b Hc.
  - rewrite append_nil_l. apply search_step_agree.
    + intros w. split; intros H; exfalso.
      * exact (token_not_space_headed P HP c "" w b Hc H).
      * exact (token_not_in_empty P HP b w H).
    + rewrite search_unfold.
      destruct (rmatch _ _ _) as [|[w st] l] eqn:E; [reflexivity|].
      exfalso. destruct (rmatch_tokenAt (Some c) "" w st) as [H _];
        [rewrite E; left; reflexivity|].
      exact (token_not_in_empty P HP _ w H).
  - rewrite append_cons. apply search_step_agree.
    + intros w. rewrite <- append_cons. apply (tokenAt_trailing P HP), Hc.
    + apply IH, Hc.
Qed.

Lemma stringMatch_trailing c x :
  isWhiteSpace c = true →
  matchText (stringMatch (x ++ String c "") re) = matchText (stringMatch x re).
Proof. apply search_trailing. Qed.

End MatchesAndSpace.

(** ** Keywords and white space *)

Lemma includes_leading c x t h t' :
  isWhiteSpace c = true → t = String h t' → isWhiteSpace h = false →
  includes (String c x) t = includes x t.
Proof.
  intros Hc -> Hh. cbn [includes]. cbn [String.prefix].
  destruct (ascii_dec h c) as [->|_]; [congruence|reflexivity].
Qed.

Lemma includes_trailing c x t l :
  isWhiteSpace c = true → lastChar t = Some l → isWhiteSpace l = false →
  includes (x ++ String c "") t = includes x t.
Proof.
  intros Hc Hl Hls. apply eq_true_iff_eq. rewrite !includes_spec. split.
  - intros (pre & post & E).
    assert (t ≠ "") as Ht by (intros ->; discriminate).
    destruct (append_snoc_inv pre x c (t ++ post) E) as (z & Ez & ->).
    { destruct t; [contradiction Ht; reflexivity|discriminate]. }
    destruct post as [|d post].
    + rewrite append_nil_r in Ez. rewrite Ez, lastChar_snoc in Hl. congruence.
    + symmetry in Ez.
      destruct (append_snoc_inv t z c (String d post) Ez) as (p & _ & ->);
        [discriminate|]. eauto.
  - intros (pre & post & ->). exists pre, (post ++ String c "").
    rewrite !append_assoc. reflexivity.
Qed.

Ltac keyword_leading :=
  repeat (erewrite includes_leading by (eassumption || reflexivity)).

Ltac keyword_trailing :=
  repeat (erewrite includes_trailing by (eassumption || reflexivity)).

Lemma keywords_leading c x :
  isWhiteSpace c = true →
  isGreeting (String c x) = isGreeting x ∧
  isWellBeing (String c x) = isWellBeing x ∧
  isCollegeQuery (String c x) = isCollegeQuery x.
Proof.
  intros Hc. unfold isGreeting, isWellBeing, isCollegeQuery.
  keyword_leading. auto.
Qed.

Lemma keywords_trailing c x :
  isWhiteSpace c = true →
  isGreeting (x ++ String c "") = isGreeting x ∧
  isWellBeing (x ++ String c "") = isWellBeing x ∧
  isCollegeQuery (x ++ String c "") = isCollegeQuery x.
Proof.
  intros Hc. unfold isGreeting, isWellBeing, isCollegeQuery.
  keyword_trailing. auto.
Qed.

(** ** The reply and white space *)

(** The run of the classifier reads the lower-cased text only through the
    three keyword tests and the two matches. *)
Lemma run_generateAIResponse_agree tnea_colleges (a b : string) :
  isGreeting (toLowerCase a) = isGreeting (toLowerCase b) →
  isWellBeing (toLowerCase a) = isWellBeing (toLowerCase b) →
  isCollegeQuery (toLowerCase a) = isCollegeQuery (toLowerCase b) →
  matchText (stringMatch (toLowerCase a) marksRegExp) =
    matchText (stringMatch (toLowerCase b) marksRegExp) →
  matchText (stringMatch (toLowerCase a) categoryRegExp) =
    matchText (stringMatch (toLowerCase b) categoryRegExp) →
  run (generateAIResponse tnea_colleges a) =
  run (generateAIResponse tnea_colleges b).
Proof.
  intros Hg Hw Hq Hm Hc. rewrite !run_generateAIResponse. cbv zeta.
  rewrite Hg, Hw, Hq.
  destruct (stringMatch (toLowerCase a) marksRegExp) as [m1|],
    (stringMatch (toLowerCase b) marksRegExp) as [m2|]; try discriminate Hm;
    destruct (stringMatch (toLowerCase a) categoryRegExp) as [c1|],
      (stringMatch (toLowerCase b) categoryRegExp) as [c2|];
    try discriminate Hc; try reflexivity.
  simpl in Hm, Hc. injection Hm as _ ->. injection Hc as -> _. reflexivity.
Qed.

Lemma toLowerCase_space_cons c x :
  isWhiteSpace c = true → toLowerCase (String c x) = String c (toLowerCase x).
Proof.
  intros Hc. unfold toLowerCase. simpl. rewrite (isWhiteSpace_lowerChar c Hc).
  reflexivity.
Qed.

Lemma toLowerCase_space_snoc c x :
  isWhiteSpace c = true →
  toLowerCase (x ++ String c "") = toLowerCase x ++ String c "".
Proof.
  intros Hc. rewrite toLowerCase_append, (toLowerCase_space_cons c "" Hc).
  reflexivity.
Qed.

Section ReplyAndSpace.

Context (tnea_colleges : list College).

Lemma run_leading_space c x :
  isWhiteSpace c = true →
  run (generateAIResponse tnea_colleges (String c x)) =
  run (generateAIResponse tnea_colleges x).
Proof.
  intros Hc. destruct (keywords_leading c (toLowerCase x) Hc) as (Hg & Hw & Hq).
  apply run_generateAIResponse_agree; rewrite toLowerCase_space_cons by exact Hc;
    try assumption.
  - exact (stringMatch_leading marksRegExp _ isScoreText marksRegExp_framed
             marks_sound marks_complete score_tokenText c _ Hc).
  - exact (stringMatch_leading categoryRegExp _ isCategoryText
             categoryRegExp_framed category_sound category_complete
             category_tokenText c _ Hc).
Qed.

Lemma run_trailing_space c x :
  isWhiteSpace c = true →
  run (generateAIResponse tnea_colleges (x ++ String c "")) =
  run (generateAIResponse tnea_colleges x).
Proof.
  intros Hc. destruct (keywords_trailing c (toLowerCase x) Hc) as (Hg & Hw & Hq).
  apply run_generateAIResponse_agree; rewrite toLowerCase_space_snoc by exact Hc;
    try assumption.
  - exact (stringMatch_trailing marksRegExp _ isScoreText marksRegExp_framed
             marks_sound marks_complete score_tokenText c _ Hc).
  - exact (stringMatch_trailing categoryRegExp _ isCategoryText
             categoryRegExp_framed category_sound category_complete
             category_tokenText c _ Hc).
Qed.

Lemma run_leading_spaces ws x :
  allChars isWhiteSpace ws = true →
  run (generateAIResponse tnea_colleges (ws ++ x)) =
  run (generateAIResponse tnea_colleges x).
Proof.
  induction ws as [|c ws IH]; [reflexivity|]. simpl.
  intros [Hc Hws]%andb_prop. rewrite append_cons, run_leading_space by exact Hc.
  apply IH, Hws.
Qed.

Lemma run_trailing_spaces ws : ∀ x,
  allChars isWhiteSpace ws = true →
  run (generateAIResponse tnea_colleges (x ++ ws)) =
  run (generateAIResponse tnea_colleges x).
Proof.
  induction ws as [|c ws IH]; intros x; [rewrite append_nil_r; reflexivity|].
  simpl. intros [Hc Hws]%andb_prop.
  rewrite <- append_snoc, IH by exact Hws. apply run_trailing_space, Hc.
Qed.

End ReplyAndSpace.

Lemma trimStart_spec s :
  ∃ ws, s = ws ++ trimStart s ∧ allChars isWhiteSpace ws = true.
Proof.
  induction s as [|c s (ws & Hs & Hws)]; [exists ""; auto|]. simpl.
  destruct (isWhiteSpace c) eqn:Hc.
  - exists (String c ws). rewrite append_cons, <- Hs. simpl.
    rewrite Hc, Hws. auto.
  - exists "". auto.
Qed.

Lemma trimEnd_spec s :
  ∃ ws, s = trimEnd s ++ ws ∧ allChars isWhiteSpace ws = true.
Proof.
  induction s as [|c s (ws & Hs & Hws)]; [exists ""; auto|]. simpl.
  destruct (trimEnd s) as [|d t] eqn:Et.
  - rewrite append_nil_l in Hs. subst ws.
    destruct (isWhiteSpace c) eqn:Hc.
    + exists (String c s). simpl. rewrite Hc, Hws. auto.
    + exists s. auto.
  - exists ws. rewrite append_cons, <- Hs. auto.
Qed.

Lemma run_trim tnea_colleges text :
  run (generateAIResponse tnea_colleges (trim text)) =
  run (generateAIResponse tnea_colleges text).
Proof.
  unfold trim. destruct (trimStart_spec text) as (ws1 & H1 & Hw1).
  destruct (trimEnd_spec (trimStart text)) as (ws2 & H2 & Hw2).
  rewrite H1 at 2. rewrite run_leading_spaces by exact Hw1.
  rewrite H2 at 2. rewrite run_trailing_spaces by exact Hw2. reflexivity.
Qed.

(** X10: white space around a text does not change what the classifier
    does with it. The run on the trimmed text, which is what a submitted
    message holds, gives the same reply and the same call of the matcher
    as the run on the text as typed; so does any text with white space
    added before and after it. *)
Theorem classifier_ignores_surrounding_space
    (tnea_colleges : list College) (text : string) :
  run (generateAIResponse tnea_colleges (trim text)) =
    run (generateAIResponse tnea_colleges text)
  ∧ ∀ before after,
      allChars isWhiteSpace before = true →
      allChars isWhiteSpace after = true →
      run (generateAIResponse tnea_colleges (before ++ text ++ after)) =
      run (generateAIResponse tnea_colleges text).
Proof.
  split.
  - apply run_trim.
  - intros before after Hb Ha.
    rewrite run_leading_spaces by exact Hb. apply run_trailing_spaces, Ha.
Qed.

Lemma classifier_ignores_surrounding_space_witness :
  run (generateAIResponse sampleCatalog (trim "  I scored 185 in BC ")) =
    run (generateAIResponse sampleCatalog "  I scored 185 in BC ")
  ∧ run (generateAIResponse sampleCatalog ("  " ++ "I scored 185 in BC" ++ " ")) =
    run (generateAIResponse sampleCatalog "I scored 185 in BC").
Proof.
  split.
  - apply (proj1 (classifier_ignores_surrounding_space sampleCatalog
                    "  I scored 185 in BC ")).
  - apply (proj2 (classifier_ignores_surrounding_space sampleCatalog
                    "I scored 185 in BC") "  " " "); reflexivity.
Defined.

(** * Properties of trimming *)

Lemma trimEnd_blank s :
  trimEnd s = "" ↔ allChars isWhiteSpace s = true.
Proof.
  induction s as [|c s IH]; [simpl; tauto|]. simpl.
  destruct (trimEnd s) as [|d t].
  - destruct (isWhiteSpace c); simpl.
    + rewrite <- IH. tauto.
    + split; discriminate.
  - split; [discriminate|]. intros [_ H]%andb_prop.
    apply IH in H. discriminate.
Qed.

Lemma trimStart_head s :
  match trimStart s with
  | "" => True
  | String c _ => isWhiteSpace c = false
  end.
Proof.
  induction s as [|c s IH]; [exact I|]. simpl.
  destruct (isWhiteSpace c) eqn:Hc; [exact IH|exact Hc].
Qed.

Lemma trimStart_fixed s :
  match s with "" => True | String c _ => isWhiteSpace c = false end →
  trimStart s = s.
Proof. destruct s as [|c s]; [reflexivity|]. simpl. intros ->. reflexivity. Qed.

Lemma trimEnd_head s :
  match s with "" => True | String c _ => isWhiteSpace c = false end →
  match trimEnd s with "" => True | String c _ => isWhiteSpace c = false end.
Proof.
  destruct s as [|c s]; [trivial|]. simpl. intros Hc.
  destruct (trimEnd s); [rewrite Hc|]; exact Hc.
Qed.

Lemma trimEnd_idempotent s : trimEnd (trimEnd s) = trimEnd s.
Proof.
  induction s as [|c s IH]; [reflexivity|]. simpl.
  destruct (trimEnd s) as [|d t] eqn:Et.
  - destruct (isWhiteSpace c) eqn:Hc; [reflexivity|]. simpl. rewrite Hc. reflexivity.
  - cbn [trimEnd]. cbn [trimEnd] in IH. rewrite IH. reflexivity.
Qed.

(** The trimmed text is empty exactly for a text of white space only, and
    trimming a second time changes nothing. *)
Lemma trim_blank s : trim s = "" ↔ allChars isWhiteSpace s = true.
Proof.
  unfold trim. rewrite trimEnd_blank.
  destruct (trimStart_spec s) as (ws & Hs & Hws).
  rewrite Hs at 2. rewrite allChars_append, Hws. reflexivity.
Qed.

Lemma trim_idempotent s : trim (trim s) = trim s.
Proof.
  unfold trim.
  rewrite (trimStart_fixed (trimEnd (trimStart s)))
    by apply trimEnd_head, trimStart_head.
  apply trimEnd_idempotent.
Qed.

Lemma trim_isTrimmed s : trim s ≠ "" → isTrimmed (trim s).
Proof. intros H. split; [apply trim_idempotent|exact H]. Qed.

(** * Properties of the chat component *)

Lemma length_sliceTo n : ∀ s, (String.length (sliceTo n s) <= n)%nat.
Proof.
  induction n as [|n IH]; intros [|c s]; simpl; try lia.
  specialize (IH s). lia.
Qed.

Lemma sliceTo_short n : ∀ s, (String.length s <= n)%nat → sliceTo n s = s.
Proof.
  induction n as [|n IH]; intros [|c s]; simpl; intros H; try reflexivity; try lia.
  rewrite IH by lia. reflexivity.
Qed.

Lemma sliceTo_long n : ∀ s,
  (n <= String.length s)%nat →
  String.length (sliceTo n s) = n ∧ ∃ rest, s = sliceTo n s ++ rest.
Proof.
  induction n as [|n IH]; intros s H.
  - split; [destruct s; reflexivity|]. exists s. destruct s; reflexivity.
  - destruct s as [|c s]; [simpl in H; lia|]. simpl in H.
    destruct (IH s) as (Hl & rest & Hs); [lia|]. simpl. split; [lia|].
    exists rest. rewrite append_cons, <- Hs. reflexivity.
Qed.

Lemma length_chatTitle content : (String.length (chatTitle content) <= 33)%nat.
Proof.
  unfold chatTitle. rewrite length_append. pose proof (length_sliceTo 30 content).
  destruct (30 <? _)%nat;
    [change (String.length "...") with 3%nat
    |change (String.length "") with 0%nat]; lia.
Qed.

Lemma chatTitle_empty content : chatTitle content = "" → content = "".
Proof. unfold chatTitle. destruct content as [|c s]; [reflexivity|]. discriminate. Qed.

(** X11: the title of a saved chat. It has at most 33 characters; it is
    the content of the first user message when that has at most 30
    characters, and otherwise the first 30 characters of the content
    followed by three dots; and it is empty only for an empty content. *)
Theorem chatTitle_bounds (content : string) :
  (String.length (chatTitle content) <= 33)%nat
  ∧ ((String.length content <= 30)%nat → chatTitle content = content)
  ∧ ((30 < String.length content)%nat →
     ∃ cut rest, content = cut ++ rest ∧ String.length cut = 30%nat ∧
                 chatTitle content = cut ++ "...")
  ∧ (chatTitle content = "" → content = "").
Proof.
  split; [apply length_chatTitle|]. split; [|split; [|apply chatTitle_empty]];
    unfold chatTitle.
  - intros H. rewrite sliceTo_short by exact H.
    assert ((30 <? String.length content)%nat = false) as ->
      by (apply Nat.ltb_ge; lia).
    apply append_nil_r.
  - intros H. destruct (sliceTo_long 30 content) as (Hl & rest & Hs); [lia|].
    exists (sliceTo 30 content), rest.
    assert ((30 <? String.length content)%nat = true) as ->
      by (apply Nat.ltb_lt; lia).
    auto.
Qed.

Lemma chatTitle_bounds_witness :
  chatTitle "185 BC" = "185 BC"
  ∧ ∃ cut rest,
      "What colleges can I get with 175 cutoff in OC?" = cut ++ rest ∧
      String.length cut = 30%nat ∧
      chatTitle "What colleges can I get with 175 cutoff in OC?" = cut ++ "...".
Proof.
  split.
  - apply (proj1 (proj2 (chatTitle_bounds "185 BC"))). simpl. lia.
  - apply (proj1 (proj2 (proj2 (chatTitle_bounds
               "What colleges can I get with 175 cutoff in OC?")))).
    simpl. lia.
Defined.

Lemma run_returns tnea_colleges userInput :
  ∃ reply log,
    run (generateAIResponse tnea_colleges userInput) = (Return reply, log).
Proof.
  rewrite run_generateAIResponse. cbv zeta.
  destruct (isGreeting _); [eauto|].
  destruct (isWellBeing _); [eauto|].
  destruct (stringMatch _ marksRegExp);
    [destruct (stringMatch _ categoryRegExp)|];
    try (destruct (isCollegeQuery _); eauto); eauto.
Qed.

Section ChatFacts.

Context (tnea_colleges : list College) (numberToString : number → string).

Lemma trim_eqb_blank s :
  String.eqb (trim s) "" = allChars isWhiteSpace s.
Proof.
  apply eq_true_iff_eq. rewrite String.eqb_eq. apply trim_blank.
Qed.

(** X12: what a submission does. A text made of white space only is not
    sent: the state stays as it is. Any other text adds one user message
    to the transcript, with the trimmed text as content (not empty, and
    with no white space around it), clears the input, raises the loading
    flag and schedules one reply, for that content. *)
Theorem send_blank_or_trimmed (now stamp : Z) (st : AppState) :
  (allChars isWhiteSpace (inputValue st) = true → handleSendMessage numberToString now stamp st = st)
  ∧ (allChars isWhiteSpace (inputValue st) = false →
     ∃ m, messages (handleSendMessage numberToString now stamp st) = (messages st ++ [m])%list
          ∧ msg_type m = User
          ∧ msg_content m = trim (inputValue st)
          ∧ isTrimmed (msg_content m)
          ∧ inputValue (handleSendMessage numberToString now stamp st) = ""
          ∧ isLoading (handleSendMessage numberToString now stamp st) = true
          ∧ timers (handleSendMessage numberToString now stamp st) = (timers st ++ [msg_content m])%list
          ∧ chatHistory (handleSendMessage numberToString now stamp st) = chatHistory st).
Proof.
  unfold handleSendMessage. rewrite trim_eqb_blank. split; intros H; rewrite H.
  - reflexivity.
  - eexists. cbn. repeat split.
    + apply trim_idempotent.
    + intros E. apply trim_blank in E. congruence.
Qed.

Lemma classifier_returns text :
  ∃ reply, fst (run (generateAIResponse tnea_colleges text)) = Return reply.
Proof.
  destruct (run_returns tnea_colleges text) as (reply & log & E).
  exists reply. rewrite E. reflexivity.
Qed.

(** X13: a full exchange. From a state with no reply pending, the
    submission of a text that is not blank followed by the expiry of the
    timer adds exactly two messages to the transcript: the user message
    with the trimmed text, and the message of the assistant, whose content
    and suggestions are those of the reply of the classifier to the text as
    it was typed. The classifier raises nothing, so the loading flag is
    down again and no reply is pending. *)
Theorem send_then_reply (now1 stamp1 now2 stamp2 : Z) (st : AppState) :
  timers st = [] →
  allChars isWhiteSpace (inputValue st) = false →
  ∃ reply log,
    run (generateAIResponse tnea_colleges (inputValue st)) = (Return reply, log)
    ∧ timerFires tnea_colleges numberToString now2 stamp2
        (handleSendMessage numberToString now1 stamp1 st) =
      {| messages :=
           (messages st ++
            [ {| msg_id := numberToString (Num (inject_Z now1));
                 msg_type := User;
                 msg_content := trim (inputValue st);
                 msg_timestamp := stamp1;
                 msg_suggestions := None |};
              {| msg_id := numberToString (Num (inject_Z (now2 + 1)));
                 msg_type := Ai;
                 msg_content := renderContent numberToString (content reply);
                 msg_timestamp := stamp2;
                 msg_suggestions := suggestions reply |} ])%list;
         inputValue := "";
         isLoading := false;
         isSidebarOpen := isSidebarOpen st;
         isListening := isListening st;
         chatHistory := chatHistory st;
         timers := [];
         toasts := toasts st |}.
Proof.
  intros Ht Hin.
  destruct (run_returns tnea_colleges (inputValue st)) as (reply & log & E).
  exists reply, log. split; [exact E|].
  unfold handleSendMessage, timerFires. rewrite trim_eqb_blank, Hin, Ht.
  cbn. unfold replyCallback.
  rewrite run_trim, E.
  cbn. rewrite <- app_assoc. reflexivity.
Qed.

End ChatFacts.

Lemma send_blank_or_trimmed_witness :
  handleSendMessage sampleNumberToString 5 6 (setInputValue "   " (initialState 0 0 0)) =
    setInputValue "   " (initialState 0 0 0)
  ∧ ∃ m, messages (handleSendMessage sampleNumberToString 5 6 (setInputValue " 185 BC " (initialState 0 0 0))) =
           (messages (setInputValue " 185 BC " (initialState 0 0 0)) ++ [m])%list
         ∧ msg_type m = User
         ∧ msg_content m = trim " 185 BC "
         ∧ isTrimmed (msg_content m)
         ∧ inputValue (handleSendMessage sampleNumberToString 5 6 (setInputValue " 185 BC " (initialState 0 0 0))) = ""
         ∧ isLoading (handleSendMessage sampleNumberToString 5 6 (setInputValue " 185 BC " (initialState 0 0 0))) = true
         ∧ timers (handleSendMessage sampleNumberToString 5 6 (setInputValue " 185 BC " (initialState 0 0 0))) =
           (timers (setInputValue " 185 BC " (initialState 0 0 0))
            ++ [msg_content m])%list
         ∧ chatHistory (handleSendMessage sampleNumberToString 5 6 (setInputValue " 185 BC " (initialState 0 0 0))) =
           chatHistory (setInputValue " 185 BC " (initialState 0 0 0)).
Proof.
  split.
  - apply (proj1 (send_blank_or_trimmed sampleNumberToString 5 6
                    (setInputValue "   " (initialState 0 0 0)))).
    reflexivity.
  - apply (proj2 (send_blank_or_trimmed sampleNumberToString 5 6
                    (setInputValue " 185 BC " (initialState 0 0 0)))).
    reflexivity.
Defined.

Lemma send_then_reply_witness :
  ∃ reply log,
    run (generateAIResponse sampleCatalog
           (inputValue (setInputValue " hello " (initialState 0 0 0)))) =
    (Return reply, log)
    ∧ timerFires sampleCatalog sampleNumberToString 7 8 (handleSendMessage sampleNumberToString 5 6 (setInputValue " hello " (initialState 0 0 0))) =
      {| messages :=
           (messages (setInputValue " hello " (initialState 0 0 0)) ++
            [ {| msg_id := sampleNumberToString (Num (inject_Z 5));
                 msg_type := User;
                 msg_content :=
                   trim (inputValue (setInputValue " hello " (initialState 0 0 0)));
                 msg_timestamp := 6;
                 msg_suggestions := None |};
              {| msg_id := sampleNumberToString (Num (inject_Z (7 + 1)));
                 msg_type := Ai;
                 msg_content := renderContent sampleNumberToString (content reply);
                 msg_timestamp := 8;
                 msg_suggestions := suggestions reply |} ])%list;
         inputValue := "";
         isLoading := false;
         isSidebarOpen := isSidebarOpen (setInputValue " hello " (initialState 0 0 0));
         isListening := isListening (setInputValue " hello " (initialState 0 0 0));
         chatHistory := chatHistory (setInputValue " hello " (initialState 0 0 0));
         timers := [];
         toasts := toasts (setInputValue " hello " (initialState 0 0 0)) |}.
Proof.
  apply (send_then_reply sampleCatalog sampleNumberToString 5 6 7 8 (setInputValue " hello " (initialState 0 0 0)));
    reflexivity.
Defined.


Section ChatInvariant.

Context (tnea_colleges : list College) (numberToString : number → string).

Lemma invariant_initial stamp0 stamp1 stamp2 :
  conversationInvariant (initialState stamp0 stamp1 stamp2).
Proof.
  unfold conversationInvariant, initialState. cbn.
  repeat split; eauto; repeat constructor; try discriminate; cbn; lia.
Qed.

Lemma invariant_input v st :
  conversationInvariant st → conversationInvariant (setInputValue v st).
Proof. intros H. exact H. Qed.

Lemma invariant_send now stamp st :
  conversationInvariant st → isLoading st = false →
  conversationInvariant (handleSendMessage numberToString now stamp st).
Proof.
  intros (H1 & (s0 & rest & H2) & H3 & H4 & H5 & H6) Hl.
  unfold handleSendMessage.
  destruct (String.eqb (trim (inputValue st)) "") eqn:E.
  { unfold conversationInvariant. eauto 10. }
  apply String.eqb_neq in E. rewrite Hl in H1.
  unfold conversationInvariant. cbn. rewrite H1, H2. cbn.
  split; [eauto|]. split; [eauto|]. rewrite H2 in H3, H6.
  split; [|split; [|split; [exact H5|]]].
  - rewrite app_comm_cons. apply Forall_app. split; [exact H3|].
    apply Forall_cons_2; [|constructor]. intros _. apply trim_isTrimmed, E.
  - apply Forall_cons_2; [|constructor]. apply trim_isTrimmed, E.
  - rewrite app_comm_cons. apply Forall_app. split; [exact H6|].
    apply Forall_cons_2; [|constructor]. discriminate.
Qed.

Lemma invariant_key key shiftKey now stamp st :
  conversationInvariant st → isLoading st = false →
  conversationInvariant (handleKeyPress numberToString key shiftKey now stamp st).
Proof.
  intros H Hl. unfold handleKeyPress.
  destruct (_ && _); [apply invariant_send; assumption|exact H].
Qed.

Lemma invariant_timer now stamp st :
  conversationInvariant st → timers st ≠ [] →
  conversationInvariant (timerFires tnea_colleges numberToString now stamp st).
Proof.
  intros (H1 & (s0 & rest & H2) & H3 & H4 & H5 & H6) Ht.
  destruct (isLoading st) eqn:Hl; [|contradiction].
  destruct H1 as [c Hc]. unfold timerFires, replyCallback. rewrite Hc.
  destruct (run (generateAIResponse tnea_colleges c)) as [out log] eqn:Er.
  destruct (run_returns tnea_colleges c) as (reply & log' & E).
  rewrite Er in E. injection E as -> <-. cbn.
  unfold conversationInvariant. cbn. rewrite H2. cbn.
  split; [reflexivity|]. split; [eauto|]. rewrite H2 in H3, H6.
  split; [|split; [constructor|split; [exact H5|]]].
  - rewrite app_comm_cons. apply Forall_app. split; [exact H3|].
    apply Forall_cons_2; [|constructor]. discriminate.
  - rewrite app_comm_cons. apply Forall_app. split; [exact H6|].
    apply Forall_cons_2; [|constructor]. cbn. intros found Hf.
    exact (attached_length _ _ _ _ _ Er Hf).
Qed.

Lemma invariant_newChat now stamp stampWelcome st :
  conversationInvariant st →
  conversationInvariant (handleNewChat numberToString now stamp stampWelcome st).
Proof.
  intros (H1 & _ & H3 & H4 & H5 & _).
  unfold conversationInvariant, handleNewChat. cbn.
  split; [exact H1|]. split; [eauto|].
  split; [repeat constructor; discriminate|]. split; [exact H4|].
  split; [|repeat constructor; discriminate].
  destruct (List.filter isUserMessage (messages st)) as [|first others] eqn:Ef;
    [exact H5|].
  apply Forall_cons_2; [|exact H5]. cbn.
  assert (In first (List.filter isUserMessage (messages st))) as Hin
    by (rewrite Ef; left; reflexivity).
  apply List.filter_In in Hin as [Hin Hu].
  rewrite Forall_forall in H3. apply list_elem_of_In in Hin.
  destruct (H3 first Hin) as [_ Hne].
  { unfold isUserMessage in Hu. destruct (msg_type first); [reflexivity|discriminate]. }
  split; [intros E; apply Hne, chatTitle_empty, E|apply length_chatTitle].
Qed.

Lemma invariant_deleteHistory st :
  conversationInvariant st → conversationInvariant (handleDeleteHistory st).
Proof.
  intros (H1 & H2 & H3 & H4 & _ & H6). unfold conversationInvariant. cbn.
  repeat split; try assumption. constructor.
Qed.

Lemma invariant_step st st' :
  conversationInvariant st → step tnea_colleges numberToString st st' →
  conversationInvariant st'.
Proof.
  intros H Hs. destruct Hs.
  - apply invariant_input, H.
  - apply invariant_key; assumption.
  - apply invariant_send; assumption.
  - apply invariant_timer; assumption.
  - apply invariant_newChat, H.
  - apply invariant_deleteHistory, H.
Qed.

Lemma reachable_invariant st :
  reachable tnea_colleges numberToString st → conversationInvariant st.
Proof.
  intros (s0 & s1 & s2 & Hr). revert st Hr. apply rtc_ind_r.
  - apply invariant_initial.
  - intros y z _ Hs Hy. exact (invariant_step y z Hy Hs).
Qed.

(** X14: one reply at a time. In every state the component can be in,
    either the loading flag is up and exactly one reply is pending, or the
    flag is down and none is: a reply never stays pending with the input
    enabled, and the input never stays disabled without a reply to come. *)
Theorem reachable_one_reply_pending (st : AppState) :
  reachable tnea_colleges numberToString st →
  (isLoading st = true ∧ ∃ c, timers st = [c])
  ∨ (isLoading st = false ∧ timers st = []).
Proof.
  intros (H1 & _)%reachable_invariant.
  destruct (isLoading st); [left|right]; auto.
Qed.

(** X15: the transcript and the history stay well formed. In every state
    the component can be in, the transcript starts with the welcome
    message of the assistant, the content of every user message is not
    empty and has no white space around it, a message that carries
    suggestions carries between 1 and 10 of them, and every entry of the
    chat history has a title that is not empty and has at most 33
    characters. *)
Theorem reachable_transcript_well_formed (st : AppState) :
  reachable tnea_colleges numberToString st →
  (∃ stamp rest, messages st = welcomeMessage stamp :: rest)
  ∧ Forall (fun m => msg_type m = User →
                     trim (msg_content m) = msg_content m ∧ msg_content m ≠ "")
           (messages st)
  ∧ Forall (fun m => ∀ found, msg_suggestions m = Some found →
                               (1 <= length found <= 10)%nat)
           (messages st)
  ∧ Forall (fun e => title e ≠ "" ∧ (String.length (title e) <= 33)%nat)
           (chatHistory st).
Proof.
  intros (_ & H2 & H3 & _ & H5 & H6)%reachable_invariant. auto.
Qed.

(** X16: a new chat does not cancel a pending reply. When a reply is
    pending and a new chat is started, the transcript is reset to the
    welcome message, and the reply, once its timer expires, is added to
    the new transcript: it answers a message of the chat that was left. *)
Theorem newChat_keeps_pending_reply
    (now stamp stampWelcome now2 stamp2 : Z) (st : AppState)
    (userContent : string) (waiting : list string) :
  timers st = userContent :: waiting →
  ∃ reply,
    fst (run (generateAIResponse tnea_colleges userContent)) = Return reply
    ∧ messages
        (timerFires tnea_colleges numberToString now2 stamp2
           (handleNewChat numberToString now stamp stampWelcome st)) =
      [ welcomeMessage stampWelcome;
        {| msg_id := numberToString (Num (inject_Z (now2 + 1)));
           msg_type := Ai;
           msg_content := renderContent numberToString (content reply);
           msg_timestamp := stamp2;
           msg_suggestions := suggestions reply |} ]
    ∧ timers
        (timerFires tnea_colleges numberToString now2 stamp2
           (handleNewChat numberToString now stamp stampWelcome st)) = waiting.
Proof.
  intros Ht. destruct (classifier_returns tnea_colleges userContent) as [reply E].
  exists reply. split; [exact E|].
  unfold timerFires, handleNewChat, replyCallback. cbn. rewrite Ht, E. cbn. auto.
Qed.

End ChatInvariant.

(** A state the component reaches: the text 185 BC was typed and sent. *)
Lemma sample_reachable :
  reachable sampleCatalog sampleNumberToString
    (handleSendMessage sampleNumberToString 5 6
       (setInputValue "185 BC" (initialState 0 0 0))).
Proof.
  exists 0%Z, 0%Z, 0%Z.
  apply rtc_l with (setInputValue "185 BC" (initialState 0 0 0));
    [apply step_input|].
  apply rtc_once, step_send; [reflexivity|].
  intros E. vm_compute in E. discriminate E.
Qed.

Lemma reachable_one_reply_pending_witness :
  (isLoading (handleSendMessage sampleNumberToString 5 6
                (setInputValue "185 BC" (initialState 0 0 0))) = true
   ∧ ∃ c, timers (handleSendMessage sampleNumberToString 5 6
                    (setInputValue "185 BC" (initialState 0 0 0))) = [c])
  ∨ (isLoading (handleSendMessage sampleNumberToString 5 6
                  (setInputValue "185 BC" (initialState 0 0 0))) = false
     ∧ timers (handleSendMessage sampleNumberToString 5 6
                 (setInputValue "185 BC" (initialState 0 0 0))) = []).
Proof.
  apply (reachable_one_reply_pending sampleCatalog sampleNumberToString).
  apply sample_reachable.
Defined.

Lemma reachable_transcript_well_formed_witness :
  (∃ stamp rest,
     messages (handleSendMessage sampleNumberToString 5 6
                 (setInputValue "185 BC" (initialState 0 0 0))) =
     welcomeMessage stamp :: rest)
  ∧ Forall (fun m => msg_type m = User →
                     trim (msg_content m) = msg_content m ∧ msg_content m ≠ "")
           (messages (handleSendMessage sampleNumberToString 5 6
                        (setInputValue "185 BC" (initialState 0 0 0))))
  ∧ Forall (fun m => ∀ found, msg_suggestions m = Some found →
                               (1 <= length found <= 10)%nat)
           (messages (handleSendMessage sampleNumberToString 5 6
                        (setInputValue "185 BC" (initialState 0 0 0))))
  ∧ Forall (fun e => title e ≠ "" ∧ (String.length (title e) <= 33)%nat)
           (chatHistory (handleSendMessage sampleNumberToString 5 6
                           (setInputValue "185 BC" (initialState 0 0 0)))).
Proof.
  apply (reachable_transcript_well_formed sampleCatalog sampleNumberToString).
  apply sample_reachable.
Defined.

Lemma newChat_keeps_pending_reply_witness :
  ∃ reply,
    fst (run (generateAIResponse sampleCatalog "185 BC")) = Return reply
    ∧ messages
        (timerFires sampleCatalog sampleNumberToString 9 10
           (handleNewChat sampleNumberToString 7 8 8
              (handleSendMessage sampleNumberToString 5 6
                 (setInputValue "185 BC" (initialState 0 0 0))))) =
      [ welcomeMessage 8;
        {| msg_id := sampleNumberToString (Num (inject_Z (9 + 1)));
           msg_type := Ai;
           msg_content := renderContent sampleNumberToString (content reply);
           msg_timestamp := 10;
           msg_suggestions := suggestions reply |} ]
    ∧ timers
        (timerFires sampleCatalog sampleNumberToString 9 10
           (handleNewChat sampleNumberToString 7 8 8
              (handleSendMessage sampleNumberToString 5 6
                 (setInputValue "185 BC" (initialState 0 0 0))))) = [].
Proof.
  apply (newChat_keeps_pending_reply sampleCatalog sampleNumberToString
           7 8 8 9 10 _ "185 BC" []).
  reflexivity.
Defined.

Lemma filter_isUserMessage_none l :
  Forall (fun m => msg_type m = Ai) l → List.filter isUserMessage l = [].
Proof.
  induction 1 as [|m l Hm _ IH]; [reflexivity|]. simpl.
  unfold isUserMessage at 1. rewrite Hm. exact IH.
Qed.

Lemma filter_isUserMessage_first before m after :
  Forall (fun x => msg_type x = Ai) before → msg_type m = User →
  List.filter isUserMessage (before ++ m :: after) =
  m :: List.filter isUserMessage after.
Proof.
  intros Hb Hm. rewrite List.filter_app, (filter_isUserMessage_none _ Hb).
  simpl. unfold isUserMessage at 1. rewrite Hm. reflexivity.
Qed.

(** X17: what a new chat saves. A transcript with no user message adds
    nothing to the history, and the notice that says the previous
    conversation was saved is shown all the same. Otherwise one entry is
    put in front of the history, with the title made from the first user
    message of the transcript, whatever follows it. In both cases the
    transcript becomes the welcome message alone and the input is
    cleared. *)
Theorem newChat_saves_first_user_message
    (numberToString : number → string) (now stamp stampWelcome : Z)
    (st : AppState) :
  (Forall (fun m => msg_type m = Ai) (messages st) →
   chatHistory (handleNewChat numberToString now stamp stampWelcome st) =
     chatHistory st
   ∧ toasts (handleNewChat numberToString now stamp stampWelcome st) =
     (toasts st ++ [newChatToast])%list)
  ∧ (∀ before m after,
       messages st = (before ++ m :: after)%list →
       Forall (fun x => msg_type x = Ai) before → msg_type m = User →
       chatHistory (handleNewChat numberToString now stamp stampWelcome st) =
         {| chat_id := numberToString (Num (inject_Z now));
            title := chatTitle (msg_content m);
            chat_timestamp := stamp |} :: chatHistory st)
  ∧ messages (handleNewChat numberToString now stamp stampWelcome st) =
      [welcomeMessage stampWelcome]
  ∧ inputValue (handleNewChat numberToString now stamp stampWelcome st) = "".
Proof.
  unfold handleNewChat. cbn. split; [|split; [|split; reflexivity]].
  - intros H. rewrite (filter_isUserMessage_none _ H). split; reflexivity.
  - intros before m after -> Hb Hm.
    rewrite (filter_isUserMessage_first _ _ _ Hb Hm). reflexivity.
Qed.

Lemma newChat_saves_first_user_message_witness :
  (chatHistory (handleNewChat sampleNumberToString 7 8 9 (initialState 0 0 0)) =
     chatHistory (initialState 0 0 0)
   ∧ toasts (handleNewChat sampleNumberToString 7 8 9 (initialState 0 0 0)) =
     (toasts (initialState 0 0 0) ++ [newChatToast])%list)
  ∧ chatHistory
      (handleNewChat sampleNumberToString 7 8 9
         (handleSendMessage sampleNumberToString 5 6
            (setInputValue "185 BC" (initialState 0 0 0)))) =
    {| chat_id := sampleNumberToString (Num (inject_Z 7));
       title := chatTitle "185 BC";
       chat_timestamp := 8 |} :: chatHistory (initialState 0 0 0).
Proof.
  split.
  - apply (proj1 (newChat_saves_first_user_message sampleNumberToString 7 8 9
                    (initialState 0 0 0))).
    repeat constructor.
  - apply (proj1 (proj2 (newChat_saves_first_user_message sampleNumberToString
                           7 8 9
                           (handleSendMessage sampleNumberToString 5 6
                              (setInputValue "185 BC" (initialState 0 0 0)))))
             [welcomeMessage 0]
             {| msg_id := sampleNumberToString (Num (inject_Z 5));
                msg_type := User;
                msg_content := "185 BC";
                msg_timestamp := 6;
                msg_suggestions := None |}
             []);
      [reflexivity|repeat constructor|reflexivity].
Defined.
